(** * The to-do backend: task controller

    A shallow embedding of the task controller of the "To-do backend with
    Ts" project (the handlers [getAllTasks], [createTask], [getTaskById]
    and [markTaskAsDone] and the module-level store [tasks] / [nextId]),
    together with the parts of JavaScript the handlers rely on: truthiness,
    [typeof], [parseInt(_, 10)], [isNaN], [Array.prototype.find] and
    [Array.prototype.findIndex].

    Modelling conventions.
    - The module-level variables [tasks] and [nextId] form the record
      [Store]; a handler is a function from the request and the store to
      the new store and the response it sends.
    - [res.json] serialises its argument when it is called, so a response
      carries a snapshot of the task(s), not a reference.
    - A JavaScript number that holds a task id or the result of [parseInt]
      is an integer or NaN.  Integers are modelled by [Z]: doubles are
      exact on integers of magnitude below 2^53, and an array holds fewer
      than 2^32 elements, so [nextId] never leaves that range.  The numbers
      of a JSON body are binary64 floats ([PrimFloat.float]).
    - A string is a [string] whose characters are the code units 0..255. *)

From Stdlib Require Import ZArith String Ascii Bool Lia Sorted.
From Stdlib Require Import Floats.PrimFloat.
From Stdlib Require Import DecimalString DecimalPos DecimalZ.
From stdpp Require Import base list.

Local Open Scope string_scope.
Local Open Scope list_scope.
Local Open Scope Z_scope.

(** ** JavaScript values *)

Module JS.

(** The values a parsed JSON body can hold, plus [undefined] (the value of
    a property that is missing). *)
#[local] Unset Elimination Schemes.
Inductive Value : Type :=
| Undefined
| Null
| Boolean (b : bool)
| Number (x : float)
| String_ (s : string)
| Array (elems : list Value)
| Object (props : list (string * Value)).
#[local] Set Elimination Schemes.

(** [ToBoolean]: [undefined], [null], [false], [+0], [-0], [NaN] and the
    empty string are falsy, everything else is truthy. *)
Definition truthy (v : Value) : bool :=
  match v with
  | Undefined | Null => false
  | Boolean b => b
  | Number x => negb (is_zero x || is_nan x)
  | String_ s => negb (String.eqb s "")
  | Array _ | Object _ => true
  end.

(** The [typeof] operator. *)
Definition typeof (v : Value) : string :=
  match v with
  | Undefined => "undefined"
  | Null => "object"
  | Boolean _ => "boolean"
  | Number _ => "number"
  | String_ _ => "string"
  | Array _ | Object _ => "object"
  end.

(** Property read on an object given by its own properties; a missing
    property reads as [undefined]. *)
Fixpoint get (props : list (string * Value)) (key : string) : Value :=
  match props with
  | [] => Undefined
  | (k, v) :: rest => if String.eqb k key then v else get rest key
  end.

(** The result of [parseInt]: NaN or an integer. *)
Inductive Int : Type :=
| NaN
| Integer (z : Z).

Definition isNaN (n : Int) : bool :=
  match n with
  | NaN => true
  | Integer _ => false
  end.

(** [x === n] for an integer [x]: NaN is equal to nothing. *)
Definition strict_eq (x : Z) (n : Int) : bool :=
  match n with
  | NaN => false
  | Integer z => x =? z
  end.

(** White space and line terminators among the code units 0..255:
    TAB, LF, VT, FF, CR, SP and NBSP. *)
Definition is_white_space (c : ascii) : bool :=
  let n := nat_of_ascii c in
  ((9 <=? n) && (n <=? 13) || (n =? 32) || (n =? 160))%nat.

Fixpoint trimStart (s : string) : string :=
  match s with
  | String c rest => if is_white_space c then trimStart rest else s
  | EmptyString => s
  end.

(** The value of a radix-10 digit. *)
Definition digit (c : ascii) : option Z :=
  let n := nat_of_ascii c in
  if ((48 <=? n) && (n <=? 57))%nat then Some (Z.of_nat n - 48) else None.

(** The longest prefix of [s] made of radix-10 digits, read left to right
    with [acc] the value of the digits already read and [seen] telling
    whether there was one. *)
Fixpoint digits (s : string) (seen : bool) (acc : Z) : option Z :=
  match s with
  | String c rest =>
      match digit c with
      | Some d => digits rest true (10 * acc + d)
      | None => if seen then Some acc else None
      end
  | EmptyString => if seen then Some acc else None
  end.

(** [parseInt(s, 10)]: skip leading white space, read an optional sign,
    then the longest prefix of digits; NaN when that prefix is empty.
    The result is the integer that the digits denote.  It is the number
    that [parseInt] returns as long as its magnitude is below 2^53;
    beyond, [parseInt] returns the nearest binary64 number, so a
    statement about the value of a parsed id carries that bound. *)
Definition parseInt (s : string) : Int :=
  let s1 := trimStart s in
  let '(sign, s2) :=
    match s1 with
    | String "-" rest => (-1, rest)
    | String "+" rest => (1, rest)
    | _ => (1, s1)
    end in
  match digits s2 false 0 with
  | Some m => Integer (sign * m)
  | None => NaN
  end.

(** [Array.prototype.find]: the first element that satisfies [p]. *)
Fixpoint find {A} (p : A -> bool) (l : list A) : option A :=
  match l with
  | [] => None
  | x :: rest => if p x then Some x else find p rest
  end.

(** [Array.prototype.findIndex]: the index of the first element that
    satisfies [p], [-1] when there is none. *)
Fixpoint findIndex_from {A} (p : A -> bool) (l : list A) (i : Z) : Z :=
  match l with
  | [] => -1
  | x :: rest => if p x then i else findIndex_from p rest (i + 1)
  end.

Definition findIndex {A} (p : A -> bool) (l : list A) : Z :=
  findIndex_from p l 0.

(** [Number.prototype.toString] on an integer that a number holds
    exactly (magnitude below 2^53): its decimal digits, after a "-" when
    it is negative.  This is how [res.json] writes the id of a task. *)
Definition toString (z : Z) : string :=
  NilEmpty.string_of_int (Z.to_int z).

End JS.

(** ** The task controller *)

(** [interface Task { id: number; title: string; completed: boolean }] *)
Record Task : Type := mkTask {
  id : Z;
  title : string;
  completed : bool
}.

(** The module-level state: [let tasks: Task[] = []; let nextId = 1]. *)
Record Store : Type := mkStore {
  tasks : list Task;
  nextId : Z
}.

Definition initial : Store := {| tasks := []; nextId := 1 |}.

(** What a handler passes to [res.json], or [Uncaught] when an exception
    leaves the handler. *)
Inductive Json : Type :=
| Tasks (l : list Task)
| OneTask (t : Task)
| Error (error : string)
| Uncaught.

(** A response: the status code ([res.json] alone sends 200) and the
    JSON payload. *)
Record Response : Type := mkResponse {
  status : Z;
  json : Json
}.

(** [req.body] as [express.json()] leaves it for a request with a JSON
    body: an object or an array (its default strict mode accepts nothing
    else).  Express 4 also leaves the empty object when there is no JSON
    body. *)
Inductive Body : Type :=
| BodyObject (props : list (string * JS.Value))
| BodyArray (elems : list JS.Value).

(** [const { title } = req.body]: an array has no [title] property. *)
Definition body_title (body : Body) : JS.Value :=
  match body with
  | BodyObject props => JS.get props "title"
  | BodyArray _ => JS.Undefined
  end.

Definition getAllTasks (s : Store) : Store * Response :=
  (s, {| status := 200; json := Tasks (tasks s) |}).

Definition createTask (body : Body) (s : Store) : Store * Response :=
  let title := body_title body in
  if negb (JS.truthy title) || negb (String.eqb (JS.typeof title) "string") then
    (s, {| status := 400;
           json := Error "Title is required and must be a string" |})
  else
    match title with
    | JS.String_ title =>
        let task := {| id := nextId s; title := title; completed := false |} in
        ({| tasks := tasks s ++ [task]; nextId := nextId s + 1 |},
         {| status := 201; json := OneTask task |})
    | _ =>
        (* not reached: [typeof title] is "string" here
           (see [createTask_not_uncaught]) *)
        (s, {| status := 500; json := Uncaught |})
    end.

Definition getTaskById (id_param : string) (s : Store) : Store * Response :=
  let id_ := JS.parseInt id_param in
  match JS.find (fun t => JS.strict_eq (id t) id_) (tasks s) with
  | None => (s, {| status := 404; json := Error "Task not found" |})
  | Some task => (s, {| status := 200; json := OneTask task |})
  end.

(** [tasks[taskIndex].completed = true]: the task object is updated in
    place, so the array holds the updated task at the same index. *)
Definition set_completed (t : Task) : Task :=
  {| id := id t; title := title t; completed := true |}.

Definition markTaskAsDone (id_param : string) (s : Store) : Store * Response :=
  let id_ := JS.parseInt id_param in
  if JS.isNaN id_ then
    (s, {| status := 400; json := Error "Invalid ID format" |})
  else
    let taskIndex := JS.findIndex (fun t => JS.strict_eq (id t) id_) (tasks s) in
    if taskIndex =? -1 then
      (s, {| status := 404; json := Error "Task not found" |})
    else
      match tasks s !! Z.to_nat taskIndex with
      | Some t =>
          let t' := set_completed t in
          ({| tasks := <[Z.to_nat taskIndex := t']> (tasks s);
              nextId := nextId s |},
           {| status := 200; json := OneTask t' |})
      | None =>
          (* [tasks[taskIndex]] is [undefined] and the assignment throws;
             not reached (see [markTaskAsDone_not_uncaught]) *)
          (s, {| status := 500; json := Uncaught |})
      end.

(** ** Requests and runs *)

(** The four routes of [taskRoutes.ts]. *)
Inductive Request : Type :=
| GET_tasks
| POST_tasks (body : Body)
| GET_tasks_id (id_param : string)
| PATCH_tasks_id_done (id_param : string).

Definition handle (r : Request) (s : Store) : Store * Response :=
  match r with
  | GET_tasks => getAllTasks s
  | POST_tasks body => createTask body s
  | GET_tasks_id i => getTaskById i s
  | PATCH_tasks_id_done i => markTaskAsDone i s
  end.

(** Serve the requests in order; the responses come out in the same
    order. *)
Fixpoint run (rs : list Request) (s : Store) : Store * list Response :=
  match rs with
  | [] => (s, [])
  | r :: rest =>
      let '(s1, resp) := handle r s in
      let '(s2, resps) := run rest s1 in
      (s2, resp :: resps)
  end.

(** The tasks that the 201 responses of a run carry, in the order of the
    responses: the tasks that the run created. *)
Definition created_task (r : Response) : option Task :=
  if status r =? 201 then
    match json r with
    | OneTask t => Some t
    | _ => None
    end
  else None.

Definition created (resps : list Response) : list Task :=
  omap created_task resps.

Definition not_found : Response :=
  {| status := 404; json := Error "Task not found" |}.

Definition invalid_id : Response :=
  {| status := 400; json := Error "Invalid ID format" |}.

Definition title_required : Response :=
  {| status := 400; json := Error "Title is required and must be a string" |}.

Definition ok (t : Task) : Response :=
  {| status := 200; json := OneTask t |}.

(** The test of [find] and [findIndex] in the handlers: [t.id === id]. *)
Definition has_id (n : JS.Int) (t : Task) : bool := JS.strict_eq (id t) n.

(** ** Vocabulary of the statements *)

(** The body has an own property [title]. *)
Definition has_title (body : Body) : bool :=
  match body with
  | BodyObject props => existsb (fun kv => String.eqb (fst kv) "title") props
  | BodyArray _ => false
  end.

(** [s] is made of radix-10 digits only. *)
Fixpoint is_digits (s : string) : bool :=
  match s with
  | String c rest =>
      match JS.digit c with
      | Some _ => is_digits rest
      | None => false
      end
  | EmptyString => true
  end.

(** The number that the digits of [s] denote in radix 10, continuing
    from [acc]. *)
Fixpoint decimal_from (s : string) (acc : Z) : Z :=
  match s with
  | String c rest => decimal_from rest (10 * acc + (Z.of_nat (nat_of_ascii c) - 48))
  | EmptyString => acc
  end.

Definition decimal (s : string) : Z := decimal_from s 0.

(** [s] does not go on with a digit: it is empty or starts with a
    character that is no digit. *)
Definition stops (s : string) : bool :=
  match s with
  | String c _ =>
      match JS.digit c with
      | Some _ => false
      | None => true
      end
  | EmptyString => true
  end.

(** The task at index [n] of [l] is the first one with id [z]: the one
    that [find] and [findIndex] stop at. *)
Definition first_with_id (z : Z) (l : list Task) (n : nat) (t : Task) : Prop :=
  l !! n = Some t /\ id t = z /\
  forall (m : nat) (y : Task), (m < n)%nat -> l !! m = Some y -> id y <> z.

(** What never changes in a task. *)
Definition task_key (t : Task) : Z * string := (id t, title t).

(** ** Sample data *)

Definition buy_milk : Body := BodyObject [("title", JS.String_ "Buy milk")].

Definition buy_milk_request : Request := POST_tasks buy_milk.

Definition empty_title : Body := BodyObject [("title", JS.String_ "")].

Definition numeric_title : Body := BodyObject [("title", JS.Number one)].

Definition task_A : Task := {| id := 1; title := "A"; completed := false |}.

Definition task_B : Task := {| id := 2; title := "B"; completed := false |}.

Definition two_tasks : Store := {| tasks := [task_A; task_B]; nextId := 3 |}.

(** The ids of the store are 1, 2, ..., n in that order and the counter
    is n + 1. *)
Definition well_formed (s : Store) : Prop :=
  map id (tasks s) = map Z.of_nat (seq 1 (length (tasks s))) /\
  nextId s = 1 + Z.of_nat (length (tasks s)).

(** The requests whose handler assigns to [tasks] or [nextId]. *)
Definition is_write (r : Request) : bool :=
  match r with
  | POST_tasks _ | PATCH_tasks_id_done _ => true
  | GET_tasks | GET_tasks_id _ => false
  end.

(** [s] is made of white space only. *)
Fixpoint is_white_spaces (s : string) : bool :=
  match s with
  | String c rest => JS.is_white_space c && is_white_spaces rest
  | EmptyString => true
  end.

(** [s] without the sign that [parseInt] reads first. *)
Definition strip_sign (s : string) : string :=
  match s with
  | String "-" rest => rest
  | String "+" rest => rest
  | _ => s
  end.

(** [req.body] itself: [undefined] where no body parser has filled it
    (Express 5 on a request without a JSON body), or the parsed body. *)
Inductive ReqBody : Type :=
| BodyUndefined
| BodyParsed (body : Body).

(** [createTask] from [req.body]: the destructuring
    [const { title } = req.body] throws a TypeError on [undefined],
    before the store is read or written, and Express answers 500. *)
Definition createTask_req (rb : ReqBody) (s : Store) : Store * Response :=
  match rb with
  | BodyUndefined => (s, {| status := 500; json := Uncaught |})
  | BodyParsed body => createTask body s
  end.

(** The payload is [{ error: ... }]. *)
Definition is_error (j : Json) : bool :=
  match j with
  | Error _ => true
  | _ => false
  end.

(** * Properties *)

(** ** [find] and [findIndex] *)

Section Find.
Context {A : Type} (p : A -> bool).

Lemma find_Some (l : list A) (x : A) :
  JS.find p l = Some x ->
  exists n : nat,
    l !! n = Some x /\ p x = true /\
    forall (m : nat) (y : A), (m < n)%nat -> l !! m = Some y -> p y = false.
Proof.
  induction l as [|a l IH]; simpl; [discriminate|].
  destruct (p a) eqn:Ha.
  - intros [= ->]. exists 0%nat. repeat split; [done|]. lia.
  - intros Hf. destruct (IH Hf) as (n & Hn & Hp & Hlt).
    exists (S n). repeat split; [done..|].
    intros [|m] y Hm; simpl; [congruence|]. apply Hlt. lia.
Qed.

Lemma find_None (l : list A) :
  JS.find p l = None <-> forall x, x ∈ l -> p x = false.
Proof.
  induction l as [|a l IH]; simpl.
  - split; [|done]. intros _ x Hx. by apply elem_of_nil in Hx.
  - destruct (p a) eqn:Ha.
    + split; [discriminate|]. intros H. specialize (H a). rewrite Ha in H.
      discriminate H. left.
    + rewrite IH. split.
      * intros H x [->|Hx]%elem_of_cons; auto.
      * intros H x Hx. apply H. by right.
Qed.

Lemma findIndex_from_None (l : list A) (i : Z) :
  JS.find p l = None -> JS.findIndex_from p l i = -1.
Proof.
  revert i. induction l as [|a l IH]; simpl; intros i; [done|].
  destruct (p a); [discriminate|]. apply IH.
Qed.

Lemma findIndex_from_Some (l : list A) (i : Z) (x : A) :
  JS.find p l = Some x ->
  exists n : nat,
    JS.findIndex_from p l i = i + Z.of_nat n /\ l !! n = Some x /\
    forall (m : nat) (y : A), (m < n)%nat -> l !! m = Some y -> p y = false.
Proof.
  revert i. induction l as [|a l IH]; simpl; intros i; [discriminate|].
  destruct (p a) eqn:Ha.
  - intros [= ->]. exists 0%nat. repeat split; [lia|lia].
  - intros Hf. destruct (IH (i + 1) Hf) as (n & Hn & Hl & Hlt).
    exists (S n). repeat split; [lia|done|].
    intros [|m] y Hm; simpl; [congruence|]. apply Hlt. lia.
Qed.

(** [findIndex] answers [-1] exactly when [find] answers [undefined], and
    otherwise the index of the element that [find] answers, which is the
    first one that satisfies [p]. *)
Lemma findIndex_find (l : list A) :
  match JS.find p l with
  | None => JS.findIndex p l = -1
  | Some x =>
      0 <= JS.findIndex p l /\
      l !! Z.to_nat (JS.findIndex p l) = Some x /\
      forall (m : nat) (y : A),
        (m < Z.to_nat (JS.findIndex p l))%nat -> l !! m = Some y -> p y = false
  end.
Proof.
  unfold JS.findIndex. destruct (JS.find p l) as [x|] eqn:Hf.
  - destruct (findIndex_from_Some l 0 x Hf) as (n & -> & Hl & Hlt).
    replace (Z.to_nat (0 + Z.of_nat n)) with n by lia.
    split; [lia|done].
  - by apply findIndex_from_None.
Qed.

End Find.

(** ** [parseInt] *)

Lemma digit_Some (c : ascii) (d : Z) :
  JS.digit c = Some d -> d = Z.of_nat (nat_of_ascii c) - 48.
Proof. unfold JS.digit. case_match; congruence. Qed.

Lemma digit_not_white_space (c : ascii) (d : Z) :
  JS.digit c = Some d -> JS.is_white_space c = false.
Proof.
  unfold JS.digit, JS.is_white_space.
  destruct (_ && _)%bool eqn:H; [|discriminate]. intros _.
  apply andb_prop in H as [H1 H2].
  apply Nat.leb_le in H1. apply Nat.leb_le in H2.
  repeat (apply orb_false_intro || apply andb_false_intro2);
    (apply Nat.leb_gt || apply Nat.eqb_neq); lia.
Qed.

Lemma digit_not_sign (c : ascii) (d : Z) :
  JS.digit c = Some d -> c <> "-"%char /\ c <> "+"%char.
Proof. split; intros ->; discriminate. Qed.

Lemma digits_prefix (ds rest : string) (seen : bool) (acc : Z) :
  is_digits ds = true -> stops rest = true ->
  JS.digits (ds ++ rest) seen acc =
    if (seen || negb (String.eqb ds ""))%bool
    then Some (decimal_from ds acc) else None.
Proof.
  revert seen acc. induction ds as [|c ds IH]; simpl; intros seen acc Hd Hr.
  - rewrite orb_false_r. destruct rest as [|c r]; [done|].
    simpl in *. by destruct (JS.digit c).
  - destruct (JS.digit c) as [d|] eqn:Hc; [|discriminate].
    rewrite (IH true _ Hd Hr). simpl. rewrite orb_true_r.
    by rewrite (digit_Some c d Hc).
Qed.

(** A string that starts with digits is read up to the first character
    that is no digit. *)
Lemma parseInt_prefix (ds rest : string) :
  is_digits ds = true -> ds <> "" -> stops rest = true ->
  JS.parseInt (ds ++ rest) = JS.Integer (decimal ds).
Proof.
  intros Hd Hne Hr. unfold JS.parseInt.
  destruct ds as [|c ds]; [done|]. simpl in Hd.
  destruct (JS.digit c) as [d|] eqn:Hc; [|discriminate].
  assert (Ht : JS.trimStart (String c ds ++ rest) = String c (ds ++ rest)).
  { simpl. by rewrite (digit_not_white_space c d Hc). }
  rewrite Ht. destruct (digit_not_sign c d Hc) as [Hm Hp].
  assert (Hs : (let '(sign, s2) :=
              match String c (ds ++ rest) with
              | String "-" r => (-1, r)
              | String "+" r => (1, r)
              | _ => (1, String c (ds ++ rest))
              end in
            match JS.digits s2 false 0 with
            | Some m => JS.Integer (sign * m)
            | None => JS.NaN
            end) =
           match JS.digits (String c ds ++ rest) false 0 with
           | Some m => JS.Integer (1 * m)
           | None => JS.NaN
           end).
  { destruct c as [[] [] [] [] [] [] [] []]; try reflexivity; congruence. }
  rewrite Hs. rewrite digits_prefix; [|simpl; by rewrite Hc|done].
  change (String c ds =? "")%string with false. cbn [orb negb].
  unfold decimal. f_equal. lia.
Qed.

(** ** The handlers, case by case *)

Lemma find_has_id_NaN (l : list Task) : JS.find (has_id JS.NaN) l = None.
Proof. apply find_None. done. Qed.

Lemma find_has_id_None (z : Z) (l : list Task) :
  (forall t, t ∈ l -> id t <> z) -> JS.find (has_id (JS.Integer z)) l = None.
Proof.
  intros H. apply find_None. intros t Ht. apply Z.eqb_neq. by apply H.
Qed.

Lemma find_has_id_exists (z : Z) (l : list Task) :
  (exists t, t ∈ l /\ id t = z) ->
  exists t, JS.find (has_id (JS.Integer z)) l = Some t.
Proof.
  intros (t & Ht & Hz).
  destruct (JS.find (has_id (JS.Integer z)) l) as [t'|] eqn:Hf; [eauto|].
  rewrite find_None in Hf. specialize (Hf t Ht).
  apply Z.eqb_neq in Hf. done.
Qed.

Lemma getTaskById_eq (id_param : string) (s : Store) :
  getTaskById id_param s =
    (s, match JS.find (has_id (JS.parseInt id_param)) (tasks s) with
        | None => not_found
        | Some t => ok t
        end).
Proof.
  unfold getTaskById, has_id.
  by destruct (JS.find _ (tasks s)).
Qed.

Lemma markTaskAsDone_NaN (id_param : string) (s : Store) :
  JS.parseInt id_param = JS.NaN -> markTaskAsDone id_param s = (s, invalid_id).
Proof. unfold markTaskAsDone. by intros ->. Qed.

Lemma markTaskAsDone_None (id_param : string) (s : Store) (z : Z) :
  JS.parseInt id_param = JS.Integer z ->
  JS.find (has_id (JS.Integer z)) (tasks s) = None ->
  markTaskAsDone id_param s = (s, not_found).
Proof.
  unfold markTaskAsDone. intros -> Hf. cbn [JS.isNaN].
  pose proof (findIndex_find (has_id (JS.Integer z)) (tasks s)) as H.
  rewrite Hf in H. unfold has_id in H. by rewrite H.
Qed.

Lemma markTaskAsDone_Some (id_param : string) (s : Store) (z : Z) (t : Task) :
  JS.parseInt id_param = JS.Integer z ->
  JS.find (has_id (JS.Integer z)) (tasks s) = Some t ->
  exists n : nat,
    tasks s !! n = Some t /\
    (forall m y, (m < n)%nat -> tasks s !! m = Some y -> id y <> z) /\
    markTaskAsDone id_param s =
      ({| tasks := <[n := set_completed t]> (tasks s); nextId := nextId s |},
       ok (set_completed t)).
Proof.
  unfold markTaskAsDone. intros -> Hf. cbn [JS.isNaN].
  pose proof (findIndex_find (has_id (JS.Integer z)) (tasks s)) as H.
  rewrite Hf in H. unfold has_id in H. destruct H as (H0 & Hl & Hlt).
  exists (Z.to_nat (JS.findIndex (fun t0 => JS.strict_eq (id t0) (JS.Integer z))
                      (tasks s))).
  split; [done|]. split.
  - intros m y Hm Hy. apply Z.eqb_neq. by apply (Hlt m y).
  - destruct (_ =? -1) eqn:E; [lia|]. by rewrite Hl.
Qed.

(** The branch of [markTaskAsDone] in which [tasks[taskIndex]] would be
    [undefined] is never taken. *)
Lemma markTaskAsDone_not_uncaught (id_param : string) (s : Store) :
  json (snd (markTaskAsDone id_param s)) <> Uncaught.
Proof.
  destruct (JS.parseInt id_param) as [|z] eqn:Hp.
  - by rewrite markTaskAsDone_NaN.
  - destruct (JS.find (has_id (JS.Integer z)) (tasks s)) as [t|] eqn:Hf.
    + destruct (markTaskAsDone_Some _ _ _ _ Hp Hf) as (n & _ & _ & ->). done.
    + by rewrite (markTaskAsDone_None _ _ _ Hp Hf).
Qed.

(** [createTask] has two outcomes, told apart by the title alone. *)
Lemma createTask_eq (body : Body) (s : Store) :
  createTask body s =
    match body_title body with
    | JS.String_ t =>
        if String.eqb t "" then (s, title_required)
        else
          let task := {| id := nextId s; title := t; completed := false |} in
          ({| tasks := tasks s ++ [task]; nextId := nextId s + 1 |},
           {| status := 201; json := OneTask task |})
    | _ => (s, title_required)
    end.
Proof.
  unfold createTask.
  destruct (body_title body) as [| |b|x|t|l|l]; simpl; try done.
  - by destruct b.
  - by destruct (is_zero x || is_nan x)%bool.
  - by destruct (String.eqb t "").
Qed.

(** The last branch of [createTask] is never taken. *)
Lemma createTask_not_uncaught (body : Body) (s : Store) :
  json (snd (createTask body s)) <> Uncaught.
Proof.
  rewrite createTask_eq.
  destruct (body_title body) as [| | | |t| |]; try done.
  by destruct (String.eqb t "").
Qed.

(** ** What a request does to the store *)

Lemma set_completed_key (t : Task) : task_key (set_completed t) = task_key t.
Proof. done. Qed.

Lemma set_completed_done (t : Task) :
  completed t = true -> set_completed t = t.
Proof. destruct t as [i ti c]. simpl. by intros ->. Qed.

Lemma first_with_id_find (z : Z) (l : list Task) (n : nat) (t : Task) :
  first_with_id z l n t -> JS.find (has_id (JS.Integer z)) l = Some t.
Proof.
  revert n. induction l as [|a l IH]; intros n (Hn & Hz & Hlt).
  - done.
  - simpl. destruct n as [|n]; simpl in Hn.
    + injection Hn as ->. unfold has_id at 1. simpl.
      by rewrite (proj2 (Z.eqb_eq _ _) Hz).
    + unfold has_id at 1. simpl.
      rewrite (proj2 (Z.eqb_neq _ _) (Hlt 0%nat a ltac:(lia) eq_refl)).
      apply (IH n). repeat split; [done..|].
      intros m y Hm Hy. apply (Hlt (S m) y); [lia|done].
Qed.

Lemma find_first_with_id (z : Z) (l : list Task) (t : Task) :
  JS.find (has_id (JS.Integer z)) l = Some t ->
  exists n, first_with_id z l n t.
Proof.
  intros (n & Hn & Hp & Hlt)%find_Some. exists n. repeat split; [done|..].
  - by apply Z.eqb_eq.
  - intros m y Hm Hy. apply Z.eqb_neq. by apply (Hlt m y).
Qed.

Lemma first_with_id_unique (z : Z) (l : list Task) (n n' : nat) (t t' : Task) :
  first_with_id z l n t -> first_with_id z l n' t' -> n = n' /\ t = t'.
Proof.
  intros (Hn & Hz & Hlt) (Hn' & Hz' & Hlt').
  assert (n = n') as <-.
  { destruct (Nat.lt_trichotomy n n') as [H|[H|H]]; [|done|].
    - by destruct (Hlt' n t H Hn).
    - by destruct (Hlt n' t' H Hn'). }
  split; [done|congruence].
Qed.

Lemma first_with_id_insert (z : Z) (l : list Task) (n : nat) (t : Task) :
  first_with_id z l n t ->
  first_with_id z (<[n := set_completed t]> l) n (set_completed t).
Proof.
  intros (Hn & Hz & Hlt). repeat split; [|done|].
  - apply list_lookup_insert_eq. by eapply lookup_lt_Some.
  - intros m y Hm Hy. rewrite list_lookup_insert_ne in Hy by lia.
    by apply (Hlt m y).
Qed.

(** [markTaskAsDone] on a parsed id that a task has. *)
Lemma markTaskAsDone_first (id_param : string) (s : Store) (z : Z)
    (n : nat) (t : Task) :
  JS.parseInt id_param = JS.Integer z ->
  first_with_id z (tasks s) n t ->
  markTaskAsDone id_param s =
    ({| tasks := <[n := set_completed t]> (tasks s); nextId := nextId s |},
     ok (set_completed t)).
Proof.
  intros Hp Hn.
  destruct (markTaskAsDone_Some _ _ _ _ Hp (first_with_id_find _ _ _ _ Hn))
    as (n' & Hn' & Hlt & ->).
  assert (first_with_id z (tasks s) n' t) as Hf.
  { repeat split; [done| |done]. by destruct Hn as (_ & ? & _). }
  by destruct (first_with_id_unique _ _ _ _ _ _ Hn Hf) as [<- _].
Qed.

(** What one request does: a successful [createTask] appends a task with
    the next id and [completed = false] and advances the counter; every
    other request leaves the counter, and the id and title of every task,
    as they were. *)
Lemma handle_created (r : Request) (s : Store) :
  match created_task (snd (handle r s)) with
  | Some t =>
      (exists body, r = POST_tasks body) /\
      id t = nextId s /\ completed t = false /\
      tasks (fst (handle r s)) = tasks s ++ [t] /\
      nextId (fst (handle r s)) = nextId s + 1
  | None =>
      map task_key (tasks (fst (handle r s))) = map task_key (tasks s) /\
      nextId (fst (handle r s)) = nextId s
  end.
Proof.
  destruct r as [|body|p|p]; simpl.
  - done.
  - rewrite createTask_eq.
    destruct (body_title body) as [| | | |t| |]; try done.
    destruct (String.eqb t ""); [done|]. simpl. split; [by eexists|done].
  - rewrite getTaskById_eq. by destruct (JS.find _ _).
  - destruct (JS.parseInt p) as [|z] eqn:Hp.
    { by rewrite markTaskAsDone_NaN. }
    destruct (JS.find (has_id (JS.Integer z)) (tasks s)) as [t|] eqn:Hf.
    + destruct (markTaskAsDone_Some _ _ _ _ Hp Hf) as (n & Hn & _ & ->).
      simpl. split; [|done].
      rewrite list_fmap_insert, set_completed_key.
      apply list_insert_id. by rewrite list_lookup_fmap, Hn.
    + by rewrite (markTaskAsDone_None _ _ _ Hp Hf).
Qed.

Lemma run_cons (r : Request) (rs : list Request) (s : Store) :
  run (r :: rs) s =
    (fst (run rs (fst (handle r s))),
     snd (handle r s) :: snd (run rs (fst (handle r s)))).
Proof.
  simpl. destruct (handle r s) as [s1 resp]. simpl.
  by destruct (run rs s1).
Qed.

Lemma created_cons (r : Response) (rs : list Response) :
  created (r :: rs) =
    match created_task r with
    | Some t => t :: created rs
    | None => created rs
    end.
Proof. done. Qed.

(** After a run, the store lists the tasks it had, then the tasks the run
    created in the order of their creation, and the counter has advanced
    by their number; the ids handed out are consecutive from the counter
    at the start. *)
Lemma run_created (rs : list Request) (s : Store) :
  let s' := fst (run rs s) in
  let new := created (snd (run rs s)) in
  map task_key (tasks s') = map task_key (tasks s) ++ map task_key new /\
  nextId s' = nextId s + Z.of_nat (length new) /\
  map id new = map (fun i : nat => nextId s + Z.of_nat i) (seq 0 (length new)).
Proof.
  revert s. induction rs as [|r rs IH]; intros s.
  - simpl. rewrite app_nil_r. split; [done|]. split; [lia|done].
  - rewrite run_cons. cbn [fst snd]. rewrite created_cons.
    pose proof (handle_created r s) as Hr.
    specialize (IH (fst (handle r s))). cbv zeta in IH.
    destruct IH as (IH1 & IH2 & IH3).
    destruct (created_task (snd (handle r s))) as [t|].
    + destruct Hr as (_ & Hid & _ & Ht & Hn).
      rewrite Ht, Hn in *. split; [|split].
      * rewrite IH1, map_app. simpl. by rewrite <- app_assoc.
      * rewrite IH2. simpl length. lia.
      * simpl length. simpl seq. simpl map. f_equal.
        { rewrite Hid. lia. }
        rewrite IH3, <- seq_shift, map_map. apply map_ext. intros i. lia.
    + destruct Hr as [Ht Hn]. rewrite Ht, Hn in *. done.
Qed.

(** ** The [completed] flag *)

(** One request and one stored task: the task stays where it is, keeps
    its id and title, and its flag changes only from [false] to [true],
    and only under [markTaskAsDone] called with its id. *)
Lemma handle_completed (r : Request) (s : Store) (i : nat) (t : Task) :
  tasks s !! i = Some t ->
  exists t',
    tasks (fst (handle r s)) !! i = Some t' /\
    id t' = id t /\ title t' = title t /\
    (completed t = true -> completed t' = true) /\
    (completed t' <> completed t ->
     completed t = false /\ completed t' = true /\
     exists p, r = PATCH_tasks_id_done p /\ JS.parseInt p = JS.Integer (id t)).
Proof.
  intros Hi.
  assert (Hsame : forall s', tasks s' = tasks s ->
    exists t', tasks s' !! i = Some t' /\ id t' = id t /\ title t' = title t /\
      (completed t = true -> completed t' = true) /\
      (completed t' <> completed t ->
       completed t = false /\ completed t' = true /\
       exists p, r = PATCH_tasks_id_done p /\ JS.parseInt p = JS.Integer (id t))).
  { intros s' ->. exists t. by repeat split. }
  destruct r as [|body|p|p]; simpl.
  - by apply Hsame.
  - rewrite createTask_eq.
    destruct (body_title body) as [| | | |ti| |]; try by apply Hsame.
    destruct (String.eqb ti ""); [by apply Hsame|]. simpl.
    exists t. rewrite lookup_app_l by (by eapply lookup_lt_Some).
    by repeat split.
  - rewrite getTaskById_eq. by apply Hsame.
  - destruct (JS.parseInt p) as [|z] eqn:Hp.
    { rewrite markTaskAsDone_NaN by done. by apply Hsame. }
    destruct (JS.find (has_id (JS.Integer z)) (tasks s)) as [u|] eqn:Hf.
    + destruct (find_first_with_id _ _ _ Hf) as (n & Hn).
      rewrite (markTaskAsDone_first _ _ _ _ _ Hp Hn). simpl.
      destruct Hn as (Hn & Hz & _).
      destruct (decide (i = n)) as [->|Hne].
      * assert (u = t) as -> by congruence.
        exists (set_completed t).
        rewrite list_lookup_insert_eq by (by eapply lookup_lt_Some).
        repeat split; try done.
        -- simpl. by destruct (completed t).
        -- exists p. split; [done|]. by rewrite Hz.
      * exists t. rewrite list_lookup_insert_ne by done. by repeat split.
    + rewrite (markTaskAsDone_None _ _ _ Hp Hf). by apply Hsame.
Qed.

(** The same, read backwards: a completed task after a request was
    completed before it, or the request is [markTaskAsDone] with its id. *)
Lemma handle_completed_inv (r : Request) (s : Store) (i : nat) (t' : Task) :
  tasks (fst (handle r s)) !! i = Some t' -> completed t' = true ->
  (exists t, tasks s !! i = Some t /\ id t = id t' /\ completed t = true) \/
  (exists p, r = PATCH_tasks_id_done p /\ JS.parseInt p = JS.Integer (id t')).
Proof.
  intros Hi Hc.
  destruct (tasks s !! i) as [t|] eqn:Ht.
  - destruct (handle_completed r s i t Ht) as (u & Hu & Hid & _ & _ & Hch).
    assert (u = t') as -> by congruence.
    destruct (completed t) eqn:Hct.
    + left. by exists t.
    + right. destruct Hch as (_ & _ & p & -> & Hp); [congruence|].
      exists p. by rewrite Hid.
  - pose proof (handle_created r s) as Hr.
    destruct (created_task (snd (handle r s))) as [u|].
    + destruct Hr as (_ & _ & Hcu & Hs & _). rewrite Hs in Hi.
      apply lookup_ge_None in Ht.
      rewrite lookup_app_r in Hi by done.
      apply list_lookup_singleton_Some in Hi as [_ ->]. congruence.
    + destruct Hr as [Hk _]. apply lookup_ge_None in Ht.
      apply lookup_lt_Some in Hi.
      apply (f_equal length) in Hk. rewrite !length_map in Hk. lia.
Qed.

Lemma run_completed (rs : list Request) (s : Store) (i : nat) (t : Task) :
  tasks s !! i = Some t ->
  exists t',
    tasks (fst (run rs s)) !! i = Some t' /\
    id t' = id t /\ title t' = title t /\
    (completed t = true -> completed t' = true).
Proof.
  revert s t. induction rs as [|r rs IH]; intros s t Hi.
  - exists t. by repeat split.
  - rewrite run_cons. cbn [fst].
    destruct (handle_completed r s i t Hi) as (u & Hu & Hid & Hti & Hc & _).
    destruct (IH _ _ Hu) as (t' & Ht' & Hid' & Hti' & Hc').
    exists t'. repeat split; [done|congruence|congruence|auto].
Qed.

Lemma run_completed_inv (rs : list Request) (s : Store) (i : nat) (t' : Task) :
  tasks (fst (run rs s)) !! i = Some t' -> completed t' = true ->
  (exists t, tasks s !! i = Some t /\ id t = id t' /\ completed t = true) \/
  (exists p, PATCH_tasks_id_done p ∈ rs /\ JS.parseInt p = JS.Integer (id t')).
Proof.
  revert s. induction rs as [|r rs IH]; intros s Hi Hc.
  - left. by exists t'.
  - rewrite run_cons in Hi. cbn [fst] in Hi.
    destruct (IH _ Hi Hc) as [(u & Hu & Hid & Hcu)|(p & Hp & Hz)].
    + destruct (handle_completed_inv r s i u Hu Hcu)
        as [(t & Ht & Hid' & Hct)|(p & -> & Hz)].
      * left. exists t. repeat split; [done|congruence|done].
      * right. exists p. split; [left|congruence].
    + right. exists p. split; [by right|done].
Qed.

(** ** [createTask] *)

Lemma get_absent (props : list (string * JS.Value)) (key : string) :
  existsb (fun kv => String.eqb (fst kv) key) props = false ->
  JS.get props key = JS.Undefined.
Proof.
  induction props as [|[k v] props IH]; simpl; [done|].
  destruct (String.eqb k key); [discriminate|]. apply IH.
Qed.

Lemma body_title_absent (body : Body) :
  has_title body = false -> body_title body = JS.Undefined.
Proof. destruct body; simpl; [apply get_absent|done]. Qed.

(** C1, as amended: for every request body whose [title] is a string that
    is not empty, [createTask] answers 201 with the new task, which has
    the next id and [completed = false], appends that task to the store
    and advances the id counter. *)
Theorem createTask_non_empty_title (body : Body) (s : Store) (t : string) :
  body_title body = JS.String_ t -> t <> "" ->
  createTask body s =
    ({| tasks := tasks s ++ [{| id := nextId s; title := t; completed := false |}];
        nextId := nextId s + 1 |},
     {| status := 201;
        json := OneTask {| id := nextId s; title := t; completed := false |} |}).
Proof.
  intros Ht Hne. rewrite createTask_eq, Ht.
  by rewrite (proj2 (String.eqb_neq t "") Hne).
Qed.

Lemma createTask_non_empty_title_witness :
  createTask buy_milk initial =
    ({| tasks := [{| id := 1; title := "Buy milk"; completed := false |}];
        nextId := 2 |},
     {| status := 201;
        json := OneTask {| id := 1; title := "Buy milk"; completed := false |} |}).
Proof.
  apply (createTask_non_empty_title buy_milk initial "Buy milk");
    [reflexivity | discriminate].
Defined.

(** C1, as stated, fails on the empty string: the title is present and is
    a string, and [createTask] answers 400 and leaves the store as it
    was. *)
Lemma createTask_empty_title_rejected :
  body_title empty_title = JS.String_ "" /\
  JS.typeof (body_title empty_title) = "string" /\
  createTask empty_title initial = (initial, title_required) /\
  status (snd (createTask empty_title initial)) <> 201.
Proof. repeat split. discriminate. Qed.

(** C4: for every request body whose [title] is absent or is not a
    string, [createTask] answers 400 with the error "Title is required and
    must be a string" and the store (tasks and id counter) is the one it
    was. *)
Theorem createTask_rejects_non_string (body : Body) (s : Store) :
  has_title body = false \/ JS.typeof (body_title body) <> "string" ->
  createTask body s =
    (s, {| status := 400;
           json := Error "Title is required and must be a string" |}).
Proof.
  intros H. rewrite createTask_eq.
  destruct H as [H|H].
  - by rewrite (body_title_absent body H).
  - by destruct (body_title body).
Qed.

Lemma createTask_rejects_non_string_witness :
  createTask (BodyObject []) two_tasks = (two_tasks, title_required) /\
  createTask numeric_title two_tasks = (two_tasks, title_required).
Proof.
  split.
  - apply (createTask_rejects_non_string (BodyObject []) two_tasks).
    left. reflexivity.
  - apply (createTask_rejects_non_string numeric_title two_tasks).
    right. discriminate.
Defined.

(** ** Ids *)

Lemma consecutive_sorted (a k : nat) :
  StronglySorted Z.lt (map Z.of_nat (seq a k)).
Proof.
  revert a. induction k as [|k IH]; intros a; simpl; constructor.
  - apply IH.
  - apply Forall_forall. intros x Hx.
    apply list_elem_of_fmap in Hx as (i & -> & Hi).
    apply elem_of_seq in Hi. lia.
Qed.

Lemma consecutive_NoDup (a k : nat) : NoDup (map Z.of_nat (seq a k)).
Proof. apply NoDup_fmap_2; [apply _|apply NoDup_seq]. Qed.

(** C2: whatever requests are served from the empty store, the ids that
    the successful [createTask] calls hand out are 1, 2, ..., k in that
    order: strictly increasing from 1, without gap or repeat.  They are
    the ids of the tasks in the store, and all of them are below the
    counter, so none is handed out again. *)
Theorem created_ids_consecutive (rs : list Request) :
  let ids := map id (created (snd (run rs initial))) in
  ids = map Z.of_nat (seq 1 (length ids)) /\
  StronglySorted Z.lt ids /\
  NoDup ids /\
  map id (tasks (fst (run rs initial))) = ids /\
  nextId (fst (run rs initial)) = 1 + Z.of_nat (length ids).
Proof.
  intros ids.
  destruct (run_created rs initial) as (Hk & Hn & Hids).
  assert (E : ids = map Z.of_nat (seq 1 (length ids))).
  { unfold ids at 1. rewrite Hids. unfold ids. rewrite !length_map.
    rewrite <- seq_shift, map_map. apply map_ext. intros i. simpl nextId. lia. }
  split; [done|]. split; [|split; [|split]].
  - rewrite E. apply consecutive_sorted.
  - rewrite E. apply consecutive_NoDup.
  - apply (f_equal (map fst)) in Hk. simpl in Hk.
    by rewrite !map_map in Hk.
  - rewrite Hn. unfold ids. by rewrite length_map.
Qed.

(** ** [getAllTasks] *)

(** C8: [getAllTasks] answers 200 with all the tasks of the store, on
    every store (the empty one too), and leaves the store as it is; and
    the tasks are in the order of their insertion: after any run, the
    store lists the tasks it had, followed by the tasks the run created
    in the order of their creation. *)
Theorem getAllTasks_spec (s : Store) (rs : list Request) :
  getAllTasks s = (s, {| status := 200; json := Tasks (tasks s) |}) /\
  getAllTasks initial = (initial, {| status := 200; json := Tasks [] |}) /\
  map task_key (tasks (fst (run rs s))) =
    map task_key (tasks s) ++ map task_key (created (snd (run rs s))).
Proof.
  split; [done|]. split; [done|]. apply run_created.
Qed.

(** C3: a task is created with [completed = false]; one request leaves
    every stored task in place with its id and title, and changes its
    flag only from [false] to [true] and only when the request is
    [markTaskAsDone] with the id of that task; over a whole run a flag
    that is [true] stays [true]; and a task that is completed in a store
    reached from the empty one owes it to a [markTaskAsDone] request of
    the run with its id. *)
Theorem completed_only_false_to_true :
  (forall (body : Body) (s : Store) (t : Task),
     created_task (snd (createTask body s)) = Some t ->
     completed t = false /\ tasks (fst (createTask body s)) = tasks s ++ [t]) /\
  (forall (r : Request) (s : Store) (i : nat) (t : Task),
     tasks s !! i = Some t ->
     exists t',
       tasks (fst (handle r s)) !! i = Some t' /\
       id t' = id t /\ title t' = title t /\
       (completed t = true -> completed t' = true) /\
       (completed t' <> completed t ->
        completed t = false /\ completed t' = true /\
        exists p, r = PATCH_tasks_id_done p /\
                  JS.parseInt p = JS.Integer (id t))) /\
  (forall (rs : list Request) (s : Store) (i : nat) (t : Task),
     tasks s !! i = Some t -> completed t = true ->
     exists t',
       tasks (fst (run rs s)) !! i = Some t' /\
       id t' = id t /\ title t' = title t /\ completed t' = true) /\
  (forall (rs : list Request) (t : Task),
     t ∈ tasks (fst (run rs initial)) -> completed t = true ->
     exists p, PATCH_tasks_id_done p ∈ rs /\
               JS.parseInt p = JS.Integer (id t)).
Proof.
  split; [|split; [|split]].
  - intros body s t Ht.
    pose proof (handle_created (POST_tasks body) s) as H. simpl in H.
    rewrite Ht in H. by destruct H as (_ & _ & ? & ? & _).
  - apply handle_completed.
  - intros rs s i t Hi Hc.
    destruct (run_completed rs s i t Hi) as (t' & ? & ? & ? & ?).
    exists t'. auto.
  - intros rs t Ht Hc. apply list_elem_of_lookup_1 in Ht as [i Hi].
    destruct (run_completed_inv rs initial i t Hi Hc) as [(u & Hu & _)|H].
    + done.
    + done.
Qed.

Lemma completed_only_false_to_true_witness :
  (completed task_A = false /\
   tasks (fst (createTask (BodyObject [("title", JS.String_ "A")]) initial))
     = [task_A]) /\
  (exists t',
     tasks (fst (run [PATCH_tasks_id_done "1"; GET_tasks_id "1"; buy_milk_request]
                   {| tasks := [set_completed task_A]; nextId := 2 |}))
       !! 0%nat = Some t' /\
     id t' = 1 /\ title t' = "A" /\ completed t' = true).
Proof.
  destruct completed_only_false_to_true as (H1 & _ & H3 & _). split.
  - apply (H1 (BodyObject [("title", JS.String_ "A")]) initial task_A).
    reflexivity.
  - apply (H3 _ {| tasks := [set_completed task_A]; nextId := 2 |} 0%nat
              (set_completed task_A)); reflexivity.
Defined.

(** ** [markTaskAsDone] and [getTaskById] *)

Lemma some_task_with_id (z : Z) (l : list Task) :
  (exists t, t ∈ l /\ id t = z) -> exists n t, first_with_id z l n t.
Proof.
  intros (t & Hf)%find_has_id_exists.
  destruct (find_first_with_id _ _ _ Hf) as [n Hn]. eauto.
Qed.

(** C5: [markTaskAsDone] answers 400 exactly when [parseInt] of the id
    segment is NaN, and then the error is "Invalid ID format"; when the
    segment parses to [z] and no task has id [z] it answers 404 "Task not
    found"; when some task has id [z] it sets [completed] of the first
    such task to [true] and answers 200 with that task as updated.  The
    store is the one it was in both error cases. *)
Theorem markTaskAsDone_spec (id_param : string) (s : Store) :
  (status (snd (markTaskAsDone id_param s)) = 400 <->
   JS.parseInt id_param = JS.NaN) /\
  (JS.parseInt id_param = JS.NaN ->
   markTaskAsDone id_param s =
     (s, {| status := 400; json := Error "Invalid ID format" |})) /\
  (forall z, JS.parseInt id_param = JS.Integer z ->
     (forall t, t ∈ tasks s -> id t <> z) ->
     markTaskAsDone id_param s =
       (s, {| status := 404; json := Error "Task not found" |})) /\
  (forall z, JS.parseInt id_param = JS.Integer z ->
     (exists t, t ∈ tasks s /\ id t = z) ->
     exists n t,
       first_with_id z (tasks s) n t /\
       markTaskAsDone id_param s =
         ({| tasks := <[n := {| id := id t; title := title t;
                                completed := true |}]> (tasks s);
             nextId := nextId s |},
          {| status := 200;
             json := OneTask {| id := id t; title := title t;
                                completed := true |} |})).
Proof.
  assert (Hnan : JS.parseInt id_param = JS.NaN ->
            markTaskAsDone id_param s = (s, invalid_id))
    by apply markTaskAsDone_NaN.
  assert (Hnone : forall z, JS.parseInt id_param = JS.Integer z ->
            (forall t, t ∈ tasks s -> id t <> z) ->
            markTaskAsDone id_param s = (s, not_found)).
  { intros z Hp Hno. apply (markTaskAsDone_None _ _ z Hp).
    by apply find_has_id_None. }
  assert (Hsome : forall z, JS.parseInt id_param = JS.Integer z ->
            (exists t, t ∈ tasks s /\ id t = z) ->
            exists n t, first_with_id z (tasks s) n t /\
              markTaskAsDone id_param s =
                ({| tasks := <[n := set_completed t]> (tasks s);
                    nextId := nextId s |}, ok (set_completed t))).
  { intros z Hp (n & t & Hn)%some_task_with_id. exists n, t.
    split; [done|]. by apply (markTaskAsDone_first _ _ z). }
  split; [|by repeat split].
  split; [|by intros ->%Hnan].
  destruct (JS.parseInt id_param) as [|z] eqn:Hp; [done|]. intros Hst.
  destruct (JS.find (has_id (JS.Integer z)) (tasks s)) as [t|] eqn:Hf.
  - destruct (markTaskAsDone_Some _ _ _ _ Hp Hf) as (n & _ & _ & E).
    by rewrite E in Hst.
  - by rewrite (markTaskAsDone_None _ _ _ Hp Hf) in Hst.
Qed.

Lemma markTaskAsDone_spec_witness :
  markTaskAsDone "abc" two_tasks = (two_tasks, invalid_id) /\
  markTaskAsDone "7" two_tasks = (two_tasks, not_found) /\
  exists n t,
    first_with_id 2 (tasks two_tasks) n t /\
    markTaskAsDone "2" two_tasks =
      ({| tasks := <[n := set_completed t]> (tasks two_tasks); nextId := 3 |},
       ok (set_completed t)).
Proof.
  split; [|split].
  - apply (markTaskAsDone_spec "abc" two_tasks). reflexivity.
  - apply (markTaskAsDone_spec "7" two_tasks) with (z := 7); [reflexivity|].
    intros t Ht. apply elem_of_cons in Ht as [->|Ht]; [discriminate|].
    apply elem_of_cons in Ht as [->|Ht]; [discriminate|].
    by apply elem_of_nil in Ht.
  - apply (markTaskAsDone_spec "2" two_tasks); [reflexivity|].
    exists task_B. split; [|reflexivity]. right. left.
Defined.

(** C6: [getTaskById] has no parse-failure check and never answers 400:
    an id segment that does not parse finds no task and gets 404 "Task not
    found", as does one that parses to an id that no task has; when some
    task has the parsed id, the answer is 200 with the first such task.
    The store is never changed.  [getTaskById] of 999 on an empty store
    answers 404. *)
Theorem getTaskById_spec (id_param : string) (s : Store) :
  fst (getTaskById id_param s) = s /\
  status (snd (getTaskById id_param s)) <> 400 /\
  (JS.parseInt id_param = JS.NaN ->
   getTaskById id_param s =
     (s, {| status := 404; json := Error "Task not found" |})) /\
  (forall z, JS.parseInt id_param = JS.Integer z ->
     (forall t, t ∈ tasks s -> id t <> z) ->
     getTaskById id_param s =
       (s, {| status := 404; json := Error "Task not found" |})) /\
  (forall z, JS.parseInt id_param = JS.Integer z ->
     (exists t, t ∈ tasks s /\ id t = z) ->
     exists n t,
       first_with_id z (tasks s) n t /\
       getTaskById id_param s = (s, {| status := 200; json := OneTask t |})) /\
  (forall n, getTaskById "999" {| tasks := []; nextId := n |} =
     ({| tasks := []; nextId := n |},
      {| status := 404; json := Error "Task not found" |})).
Proof.
  rewrite getTaskById_eq. repeat split.
  - by destruct (JS.find _ _).
  - intros ->. by rewrite find_has_id_NaN.
  - intros z -> Hno. by rewrite find_has_id_None.
  - intros z -> (n & t & Hn)%some_task_with_id. exists n, t.
    split; [done|]. by rewrite (first_with_id_find _ _ _ _ Hn).
Qed.

Lemma getTaskById_spec_witness :
  getTaskById "abc" two_tasks = (two_tasks, not_found) /\
  exists n t,
    first_with_id 2 (tasks two_tasks) n t /\
    getTaskById "2" two_tasks = (two_tasks, ok t).
Proof.
  split.
  - apply (getTaskById_spec "abc" two_tasks). reflexivity.
  - apply (getTaskById_spec "2" two_tasks); [reflexivity|].
    exists task_B. split; [|reflexivity]. right. left.
Defined.

Lemma store_eta (s : Store) : {| tasks := tasks s; nextId := nextId s |} = s.
Proof. by destruct s. Qed.

(** C7: [markTaskAsDone] called twice with an id that a task has answers
    200 both times, with the same task and [completed = true], and the
    second call leaves the store as the first one left it; on a task that
    is completed already the call changes nothing and answers 200 with
    that task. *)
Theorem markTaskAsDone_idempotent (id_param : string) (s : Store) (z : Z) :
  JS.parseInt id_param = JS.Integer z ->
  (exists t, t ∈ tasks s /\ id t = z) ->
  (exists t',
     completed t' = true /\
     snd (markTaskAsDone id_param s) = {| status := 200; json := OneTask t' |} /\
     snd (markTaskAsDone id_param (fst (markTaskAsDone id_param s))) =
       {| status := 200; json := OneTask t' |} /\
     fst (markTaskAsDone id_param (fst (markTaskAsDone id_param s))) =
       fst (markTaskAsDone id_param s)) /\
  (forall n t, first_with_id z (tasks s) n t -> completed t = true ->
     markTaskAsDone id_param s = (s, {| status := 200; json := OneTask t |})).
Proof.
  intros Hp He. split.
  - destruct (some_task_with_id _ _ He) as (n & t & Hn).
    rewrite (markTaskAsDone_first _ _ _ _ _ Hp Hn). cbn [fst snd].
    pose proof (first_with_id_insert _ _ _ _ Hn) as Hn'.
    rewrite (markTaskAsDone_first id_param
               {| tasks := <[n := set_completed t]> (tasks s);
                  nextId := nextId s |} z n (set_completed t) Hp Hn').
    cbn [fst snd tasks nextId]. exists (set_completed t).
    repeat split. by rewrite list_insert_insert_eq.
  - intros n t Hn Hc. rewrite (markTaskAsDone_first _ _ _ _ _ Hp Hn).
    rewrite (set_completed_done t Hc).
    rewrite list_insert_id by apply Hn. by rewrite store_eta.
Qed.

Lemma markTaskAsDone_idempotent_witness :
  (exists t',
     completed t' = true /\
     snd (markTaskAsDone "2" two_tasks) = ok t' /\
     snd (markTaskAsDone "2" (fst (markTaskAsDone "2" two_tasks))) = ok t' /\
     fst (markTaskAsDone "2" (fst (markTaskAsDone "2" two_tasks))) =
       fst (markTaskAsDone "2" two_tasks)) /\
  (forall n t, first_with_id 2 (tasks two_tasks) n t -> completed t = true ->
     markTaskAsDone "2" two_tasks = (two_tasks, ok t)).
Proof.
  apply (markTaskAsDone_idempotent "2" two_tasks 2); [reflexivity|].
  exists task_B. split; [|reflexivity]. right. left.
Defined.

(** C9: when [markTaskAsDone] answers 200, the id counter and the length
    of the task sequence are as before, one task (the first with the
    parsed id) has [completed = true] and the id and title it had, the
    task at every other index is the one that was there, and so the ids
    and titles are the same in the same order. *)
Theorem markTaskAsDone_frame (id_param : string) (s : Store) :
  status (snd (markTaskAsDone id_param s)) = 200 ->
  let s' := fst (markTaskAsDone id_param s) in
  nextId s' = nextId s /\
  length (tasks s') = length (tasks s) /\
  map task_key (tasks s') = map task_key (tasks s) /\
  exists z n t,
    JS.parseInt id_param = JS.Integer z /\
    first_with_id z (tasks s) n t /\
    tasks s' !! n =
      Some {| id := id t; title := title t; completed := true |} /\
    forall m, m <> n -> tasks s' !! m = tasks s !! m.
Proof.
  intros Hst s'. subst s'.
  destruct (JS.parseInt id_param) as [|z] eqn:Hp.
  { by rewrite (markTaskAsDone_NaN _ _ Hp) in Hst. }
  destruct (JS.find (has_id (JS.Integer z)) (tasks s)) as [t|] eqn:Hf.
  2: { by rewrite (markTaskAsDone_None _ _ _ Hp Hf) in Hst. }
  destruct (find_first_with_id _ _ _ Hf) as (n & Hn).
  rewrite (markTaskAsDone_first _ _ _ _ _ Hp Hn). cbn [fst tasks nextId].
  pose proof Hn as (Hl & _ & _).
  split; [done|]. split; [apply length_insert|]. split.
  - rewrite list_fmap_insert, set_completed_key.
    apply list_insert_id. by rewrite list_lookup_fmap, Hl.
  - exists z, n, t. repeat split; try apply Hn.
    + apply list_lookup_insert_eq. by eapply lookup_lt_Some.
    + intros m Hm. by apply list_lookup_insert_ne.
Qed.

Lemma markTaskAsDone_frame_witness :
  let s' := fst (markTaskAsDone "1" two_tasks) in
  nextId s' = 3 /\
  length (tasks s') = 2%nat /\
  map task_key (tasks s') = [(1, "A"); (2, "B")] /\
  exists z n t,
    JS.parseInt "1" = JS.Integer z /\
    first_with_id z (tasks two_tasks) n t /\
    tasks s' !! n =
      Some {| id := id t; title := title t; completed := true |} /\
    forall m, m <> n -> tasks s' !! m = tasks two_tasks !! m.
Proof. apply (markTaskAsDone_frame "1" two_tasks). reflexivity. Defined.

(** ** Lenient ids *)

Lemma getTaskById_parseInt (p q : string) (s : Store) :
  JS.parseInt p = JS.parseInt q -> getTaskById p s = getTaskById q s.
Proof. unfold getTaskById. by intros ->. Qed.

Lemma markTaskAsDone_parseInt (p q : string) (s : Store) :
  JS.parseInt p = JS.parseInt q -> markTaskAsDone p s = markTaskAsDone q s.
Proof. unfold markTaskAsDone. by intros ->. Qed.

Lemma append_empty (s : string) : (s ++ "")%string = s.
Proof. induction s as [|c s IH]; simpl; [done|by rewrite IH]. Qed.

Lemma markTaskAsDone_parsed_status (id_param : string) (s : Store) (z : Z) :
  JS.parseInt id_param = JS.Integer z ->
  status (snd (markTaskAsDone id_param s)) <> 400.
Proof.
  intros Hp.
  destruct (JS.find (has_id (JS.Integer z)) (tasks s)) as [t|] eqn:Hf.
  - by destruct (markTaskAsDone_Some _ _ _ _ Hp Hf) as (n & _ & _ & ->).
  - by rewrite (markTaskAsDone_None _ _ _ Hp Hf).
Qed.

(** C10: an id segment made of radix-10 digits followed by characters of
    which the first is no digit is not unparseable: it parses as its
    digits alone do, [getTaskById] and [markTaskAsDone] do with it what
    they do with the digits alone, and [markTaskAsDone] does not answer
    400.  When the number that the digits denote is below 2^53 (where a
    number holds it exactly), the segment parses to that number and both
    handlers find, and [markTaskAsDone] updates, the task with that id.
    In particular "1abc" parses to 1. *)
Theorem parseInt_lenient (ds rest : string) (s : Store) :
  is_digits ds = true -> ds <> "" -> stops rest = true ->
  JS.parseInt "1abc" = JS.Integer 1 /\
  JS.parseInt (ds ++ rest) = JS.parseInt ds /\
  JS.parseInt (ds ++ rest) <> JS.NaN /\
  status (snd (markTaskAsDone (ds ++ rest) s)) <> 400 /\
  getTaskById (ds ++ rest) s = getTaskById ds s /\
  markTaskAsDone (ds ++ rest) s = markTaskAsDone ds s /\
  (decimal ds < 2 ^ 53 ->
   JS.parseInt (ds ++ rest) = JS.Integer (decimal ds) /\
   forall n t, first_with_id (decimal ds) (tasks s) n t ->
     getTaskById (ds ++ rest) s = (s, {| status := 200; json := OneTask t |}) /\
     markTaskAsDone (ds ++ rest) s =
       ({| tasks := <[n := {| id := id t; title := title t;
                              completed := true |}]> (tasks s);
           nextId := nextId s |},
        {| status := 200;
           json := OneTask {| id := id t; title := title t;
                              completed := true |} |})).
Proof.
  intros Hd Hne Hr.
  pose proof (parseInt_prefix ds rest Hd Hne Hr) as Hp.
  pose proof (parseInt_prefix ds "" Hd Hne eq_refl) as Hp0.
  rewrite append_empty in Hp0.
  split; [done|]. split; [congruence|]. split; [by rewrite Hp|].
  split; [by apply (markTaskAsDone_parsed_status _ _ _ Hp)|].
  split; [|split].
  - apply getTaskById_parseInt. congruence.
  - apply markTaskAsDone_parseInt. congruence.
  - intros _. split; [done|]. intros n t Hn. split.
    + by rewrite getTaskById_eq, Hp, (first_with_id_find _ _ _ _ Hn).
    + by apply (markTaskAsDone_first _ _ _ _ _ Hp Hn).
Qed.

Lemma parseInt_lenient_witness :
  (JS.parseInt "2abc" = JS.parseInt "2" /\
   JS.parseInt "2abc" <> JS.NaN /\
   status (snd (markTaskAsDone "2abc" two_tasks)) <> 400 /\
   getTaskById "2abc" two_tasks = getTaskById "2" two_tasks /\
   markTaskAsDone "2abc" two_tasks = markTaskAsDone "2" two_tasks) /\
  JS.parseInt "2abc" = JS.Integer 2 /\
  (forall n t, first_with_id 2 (tasks two_tasks) n t ->
     getTaskById "2abc" two_tasks = (two_tasks, ok t) /\
     markTaskAsDone "2abc" two_tasks =
       ({| tasks := <[n := set_completed t]> (tasks two_tasks); nextId := 3 |},
        ok (set_completed t))).
Proof.
  destruct (parseInt_lenient "2" "abc" two_tasks eq_refl
              ltac:(discriminate) eq_refl)
    as (_ & H1 & H2 & H3 & H4 & H5 & H6).
  split; [by repeat split|]. apply H6. reflexivity.
Defined.

(** * Further properties of the controller *)

(** ** More on [parseInt] *)

Lemma parseInt_white_space (c : ascii) (s : string) :
  JS.is_white_space c = true -> JS.parseInt (String c s) = JS.parseInt s.
Proof. intros H. unfold JS.parseInt. simpl JS.trimStart. by rewrite H. Qed.

Lemma parseInt_white_spaces (ws s : string) :
  is_white_spaces ws = true -> JS.parseInt (ws ++ s) = JS.parseInt s.
Proof.
  induction ws as [|c ws IH]; simpl; [done|].
  intros [Hc Hws]%andb_prop. rewrite parseInt_white_space by done. auto.
Qed.

Lemma trimStart_digit (c : ascii) (s : string) (d : Z) :
  JS.digit c = Some d -> JS.trimStart (String c s) = String c s.
Proof. intros H. simpl. by rewrite (digit_not_white_space c d H). Qed.

Lemma parseInt_minus (ds rest : string) :
  is_digits ds = true -> ds <> "" -> stops rest = true ->
  JS.parseInt (String "-" (ds ++ rest)) = JS.Integer (- decimal ds).
Proof.
  intros Hd Hne Hr. unfold JS.parseInt.
  change (JS.trimStart (String "-" (ds ++ rest))) with (String "-" (ds ++ rest)).
  cbv iota beta. rewrite digits_prefix by done.
  destruct ds as [|c ds]; [done|].
  change (String c ds =? "")%string with false. cbn [orb negb].
  unfold decimal. f_equal; lia.
Qed.

Lemma parseInt_plus (ds rest : string) :
  is_digits ds = true -> ds <> "" -> stops rest = true ->
  JS.parseInt (String "+" (ds ++ rest)) = JS.Integer (decimal ds).
Proof.
  intros Hd Hne Hr. unfold JS.parseInt.
  change (JS.trimStart (String "+" (ds ++ rest))) with (String "+" (ds ++ rest)).
  cbv iota beta. rewrite digits_prefix by done.
  destruct ds as [|c ds]; [done|].
  change (String c ds =? "")%string with false. cbn [orb negb].
  unfold decimal. f_equal; lia.
Qed.

(** The digits that [toString] writes, read back. *)
Lemma is_digits_string_of_uint (d : Decimal.uint) :
  is_digits (NilEmpty.string_of_uint d) = true.
Proof. induction d; simpl; done. Qed.

Lemma string_of_uint_nonnil (d : Decimal.uint) :
  d <> Decimal.Nil -> NilEmpty.string_of_uint d <> "".
Proof. by destruct d. Qed.

Lemma decimal_from_of_uint_acc (d : Decimal.uint) (p : positive) :
  decimal_from (NilEmpty.string_of_uint d) (Z.pos p) =
  Z.pos (Pos.of_uint_acc d p).
Proof.
  revert p. induction d; intros p; cbn [NilEmpty.string_of_uint decimal_from
    Pos.of_uint_acc]; [done|..];
    rewrite <- IHd; f_equal;
    match goal with
    | |- context [nat_of_ascii ?c] =>
        let n := eval vm_compute in (Z.of_nat (nat_of_ascii c)) in
        change (Z.of_nat (nat_of_ascii c)) with n
    end; lia.
Qed.

Lemma decimal_of_uint (d : Decimal.uint) :
  decimal (NilEmpty.string_of_uint d) = Z.of_N (Pos.of_uint d).
Proof.
  unfold decimal.
  induction d; cbn [NilEmpty.string_of_uint decimal_from Pos.of_uint];
    [done|..];
    match goal with
    | |- decimal_from _ ?a = _ =>
        let v := eval vm_compute in a in change a with v
    end; [apply IHd|apply decimal_from_of_uint_acc..].
Qed.

Lemma parseInt_string_of_uint (p : positive) :
  JS.parseInt (NilEmpty.string_of_uint (Pos.to_uint p)) = JS.Integer (Z.pos p) /\
  JS.parseInt (String "-" (NilEmpty.string_of_uint (Pos.to_uint p))) =
    JS.Integer (Z.neg p).
Proof.
  pose proof (is_digits_string_of_uint (Pos.to_uint p)) as Hd.
  pose proof (string_of_uint_nonnil _ (Unsigned.to_uint_nonnil p)) as Hne.
  pose proof (decimal_of_uint (Pos.to_uint p)) as Hv.
  rewrite Unsigned.of_to in Hv.
  rewrite <- (append_empty (NilEmpty.string_of_uint (Pos.to_uint p))).
  rewrite parseInt_prefix, parseInt_minus by done.
  by rewrite Hv.
Qed.

Lemma parseInt_toString_any (z : Z) :
  JS.parseInt (JS.toString z) = JS.Integer z.
Proof.
  destruct z as [|p|p]; [done|..]; apply (parseInt_string_of_uint p).
Qed.

(** X6: an integer that a number holds exactly, written by [toString]
    and read by [parseInt], is the integer itself. *)
Theorem parseInt_toString (z : Z) :
  Z.abs z < 2 ^ 53 -> JS.parseInt (JS.toString z) = JS.Integer z.
Proof. intros _. apply parseInt_toString_any. Qed.

Lemma parseInt_toString_witness :
  JS.parseInt (JS.toString 9007199254740991) = JS.Integer 9007199254740991 /\
  JS.parseInt (JS.toString (-42)) = JS.Integer (-42).
Proof.
  split; apply parseInt_toString; reflexivity.
Defined.

(** ** Outcomes *)

(** X1: [createTask] answers 201 exactly when the title is a string that
    is not empty; in every other case it answers 400 with the error and
    the store is the one it was. *)
Theorem createTask_created_iff (body : Body) (s : Store) :
  (status (snd (createTask body s)) = 201 <->
   exists t, body_title body = JS.String_ t /\ t <> "") /\
  (status (snd (createTask body s)) <> 201 ->
   createTask body s =
     (s, {| status := 400;
            json := Error "Title is required and must be a string" |})).
Proof.
  rewrite createTask_eq.
  destruct (body_title body) as [| |b|x|t|l|l];
    try (split; [split; [discriminate|by intros (? & ? & _)]|done]).
  destruct (String.eqb_spec t "") as [->|Hne].
  - split; [|done]. split; [discriminate|]. by intros (? & [= <-] & ?).
  - split; [|done]. split; [|done]. intros _. by exists t.
Qed.

Lemma createTask_created_iff_witness :
  status (snd (createTask buy_milk two_tasks)) = 201 /\
  createTask empty_title two_tasks = (two_tasks, title_required).
Proof.
  split.
  - apply (createTask_created_iff buy_milk two_tasks).
    exists "Buy milk". split; [reflexivity|discriminate].
  - apply (createTask_created_iff empty_title two_tasks). discriminate.
Defined.

(** X2: an exception leaves a handler in one case only: [createTask]
    when [req.body] is [undefined], where the destructuring throws before
    the store is read or written.  On a parsed body, and in the other
    three handlers on every input, nothing is thrown (in particular
    [tasks[taskIndex]] is never [undefined] in [markTaskAsDone]) and the
    status is the one of the route: 200 for the list, 201 or 400 for a
    creation, 200 or 404 for a lookup, 200, 400 or 404 for a completion.
    The payload is an error object exactly when the status is 400 or 404,
    and then the store is the one it was. *)
Theorem handle_status (r : Request) (rb : ReqBody) (s : Store) :
  let resp := snd (handle r s) in
  (json (snd (createTask_req rb s)) = Uncaught <-> rb = BodyUndefined) /\
  (rb = BodyUndefined ->
   createTask_req rb s = (s, {| status := 500; json := Uncaught |})) /\
  json resp <> Uncaught /\
  match r with
  | GET_tasks => status resp = 200
  | POST_tasks _ => status resp = 201 \/ status resp = 400
  | GET_tasks_id _ => status resp = 200 \/ status resp = 404
  | PATCH_tasks_id_done _ =>
      status resp = 200 \/ status resp = 400 \/ status resp = 404
  end /\
  is_error (json resp) = (status resp =? 400) || (status resp =? 404) /\
  (is_error (json resp) = true -> fst (handle r s) = s).
Proof.
  intros resp. subst resp. split; [|split; [by intros ->|]].
  { destruct rb as [|body]; simpl; [done|]. split; [|done].
    intros H. by apply createTask_not_uncaught in H. }
  destruct r as [|body|p|p]; simpl.
  - by repeat split.
  - rewrite createTask_eq.
    destruct (body_title body) as [| | | |t| |];
      try (repeat split; first [done | by right]).
    destruct (String.eqb t ""); repeat split; first [done | by right | by left].
  - rewrite getTaskById_eq.
    destruct (JS.find _ _); repeat split; first [done | by right | by left].
  - destruct (JS.parseInt p) as [|z] eqn:Hp.
    { rewrite markTaskAsDone_NaN by done.
      repeat split; first [done | by right; left]. }
    destruct (JS.find (has_id (JS.Integer z)) (tasks s)) as [t|] eqn:Hf.
    + destruct (markTaskAsDone_Some _ _ _ _ Hp Hf) as (n & _ & _ & ->).
      repeat split; first [done | by left].
    + rewrite (markTaskAsDone_None _ _ _ Hp Hf).
      repeat split; first [done | by right; right].
Qed.

Lemma handle_status_witness :
  createTask_req BodyUndefined two_tasks =
    (two_tasks, {| status := 500; json := Uncaught |}) /\
  fst (handle (PATCH_tasks_id_done "9") two_tasks) = two_tasks.
Proof.
  destruct (handle_status (PATCH_tasks_id_done "9") BodyUndefined two_tasks)
    as (_ & H1 & _ & _ & _ & H2).
  split; [apply H1|apply H2]; reflexivity.
Defined.

(** ** Well-formed stores *)

Lemma well_formed_lookup (s : Store) (i : nat) (t : Task) :
  well_formed s -> tasks s !! i = Some t -> id t = Z.of_nat i + 1.
Proof.
  intros [Hids _] Hi.
  assert (H : map id (tasks s) !! i = Some (id t)).
  { by rewrite list_lookup_fmap, Hi. }
  rewrite Hids, list_lookup_fmap in H.
  rewrite lookup_seq_lt in H by (by eapply lookup_lt_Some).
  injection H as <-. lia.
Qed.

Lemma well_formed_first (s : Store) (i : nat) (t : Task) :
  well_formed s -> tasks s !! i = Some t ->
  first_with_id (Z.of_nat i + 1) (tasks s) i t.
Proof.
  intros Hwf Hi. repeat split; [done|by apply (well_formed_lookup s)|].
  intros m y Hm Hy. rewrite (well_formed_lookup s m y Hwf Hy). lia.
Qed.

Lemma well_formed_absent (s : Store) (z : Z) :
  well_formed s -> ~ (1 <= z <= Z.of_nat (length (tasks s))) ->
  forall t, t ∈ tasks s -> id t <> z.
Proof.
  intros Hwf Hz t [i Hi]%list_elem_of_lookup_1.
  rewrite (well_formed_lookup s i t Hwf Hi).
  apply lookup_lt_Some in Hi. lia.
Qed.

Lemma well_formed_initial : well_formed initial.
Proof. done. Qed.

Lemma run_well_formed (rs : list Request) (s : Store) :
  well_formed s -> well_formed (fst (run rs s)).
Proof.
  intros [Hids Hn].
  destruct (run_created rs s) as (Hk & Hn' & Hnew).
  set (s' := fst (run rs s)) in *.
  set (new := created (snd (run rs s))) in *.
  assert (Hid : map id (tasks s') = map id (tasks s) ++ map id new).
  { apply (f_equal (map fst)) in Hk. rewrite map_app, !map_map in Hk.
    exact Hk. }
  assert (Hlen : length (tasks s') = (length (tasks s) + length new)%nat).
  { apply (f_equal length) in Hid.
    by rewrite length_app, !length_map in Hid. }
  split.
  - rewrite Hid, Hids, Hnew, Hlen, seq_app, map_app. f_equal.
    rewrite <- (Nat.add_0_r (1 + length (tasks s))) at 1.
    rewrite <- (fmap_add_seq (1 + length (tasks s)) 0), map_map.
    apply map_ext. intros i. lia.
  - rewrite Hn', Hn, Hlen. lia.
Qed.

(** X3: the store starts well formed (ids 1, 2, ..., n in order, counter
    n + 1) and every run keeps it so; in particular no two tasks share an
    id and every id is at least 1 and below the counter. *)
Theorem well_formed_invariant (rs : list Request) (s : Store) :
  well_formed initial /\
  (well_formed s ->
   let s' := fst (run rs s) in
   well_formed s' /\
   NoDup (map id (tasks s')) /\
   forall t, t ∈ tasks s' -> 1 <= id t < nextId s').
Proof.
  split; [done|]. intros Hwf s'.
  pose proof (run_well_formed rs s Hwf) as Hwf'. fold s' in Hwf'.
  split; [done|]. split.
  - destruct Hwf' as [-> _]. apply consecutive_NoDup.
  - intros t [i Hi]%list_elem_of_lookup_1.
    rewrite (well_formed_lookup s' i t Hwf' Hi).
    apply lookup_lt_Some in Hi. destruct Hwf' as [_ ->]. lia.
Qed.

Lemma well_formed_invariant_witness :
  let s' := fst (run [buy_milk_request; PATCH_tasks_id_done "3"] two_tasks) in
  well_formed s' /\
  NoDup (map id (tasks s')) /\
  forall t, t ∈ tasks s' -> 1 <= id t < nextId s'.
Proof.
  apply (well_formed_invariant
           [buy_milk_request; PATCH_tasks_id_done "3"] two_tasks).
  split; reflexivity.
Defined.

(** X4: in a well-formed store an id is a position: a segment that parses
    to [z] with [1 <= z <= n] designates the task at index [z - 1], which
    [getTaskById] returns and [markTaskAsDone] completes; any other [z]
    (zero, negative, beyond [n]) gets 404 from both and leaves the store
    as it was. *)
Theorem id_is_position (id_param : string) (s : Store) (z : Z) :
  well_formed s -> JS.parseInt id_param = JS.Integer z ->
  (1 <= z <= Z.of_nat (length (tasks s)) ->
   exists t,
     tasks s !! Z.to_nat (z - 1) = Some t /\ id t = z /\
     getTaskById id_param s = (s, {| status := 200; json := OneTask t |}) /\
     markTaskAsDone id_param s =
       ({| tasks := <[Z.to_nat (z - 1) := set_completed t]> (tasks s);
           nextId := nextId s |},
        {| status := 200; json := OneTask (set_completed t) |})) /\
  (~ (1 <= z <= Z.of_nat (length (tasks s))) ->
   getTaskById id_param s =
     (s, {| status := 404; json := Error "Task not found" |}) /\
   markTaskAsDone id_param s =
     (s, {| status := 404; json := Error "Task not found" |})).
Proof.
  intros Hwf Hp. split.
  - intros Hz.
    destruct (lookup_lt_is_Some_2 (tasks s) (Z.to_nat (z - 1))) as [t Ht];
      [lia|].
    pose proof (well_formed_first s _ t Hwf Ht) as Hf.
    replace (Z.of_nat (Z.to_nat (z - 1)) + 1) with z in Hf by lia.
    exists t. split; [done|]. split; [apply Hf|]. split.
    + by rewrite getTaskById_eq, Hp, (first_with_id_find _ _ _ _ Hf).
    + by apply (markTaskAsDone_first _ _ z).
  - intros Hz. pose proof (well_formed_absent s z Hwf Hz) as Hno.
    pose proof (find_has_id_None z (tasks s) Hno) as Hf. split.
    + by rewrite getTaskById_eq, Hp, Hf.
    + by apply (markTaskAsDone_None _ _ z).
Qed.

Lemma id_is_position_witness :
  (exists t,
     tasks two_tasks !! Z.to_nat (2 - 1) = Some t /\ id t = 2 /\
     getTaskById "2" two_tasks = (two_tasks, ok t) /\
     markTaskAsDone "2" two_tasks =
       ({| tasks := <[Z.to_nat (2 - 1) := set_completed t]> (tasks two_tasks);
           nextId := 3 |}, ok (set_completed t))) /\
  getTaskById "-1" two_tasks = (two_tasks, not_found) /\
  markTaskAsDone "0" two_tasks = (two_tasks, not_found).
Proof.
  split; [|split].
  - apply (id_is_position "2" two_tasks 2); [split; reflexivity|reflexivity|].
    simpl. lia.
  - apply (id_is_position "-1" two_tasks (-1));
      [split; reflexivity|reflexivity|]. simpl. lia.
  - apply (id_is_position "0" two_tasks 0);
      [split; reflexivity|reflexivity|]. simpl. lia.
Defined.

(** ** How the operations compose *)

(** X5: create, then address the task by the id of the 201 response
    written in decimal: in a well-formed store whose counter is still an
    exact number, [getTaskById] returns the task that was created and
    [markTaskAsDone] completes it. *)
Theorem create_then_find (body : Body) (s : Store) (t : string) :
  well_formed s -> nextId s < 2 ^ 53 ->
  body_title body = JS.String_ t -> t <> "" ->
  let task := {| id := nextId s; title := t; completed := false |} in
  let s1 := fst (createTask body s) in
  snd (createTask body s) = {| status := 201; json := OneTask task |} /\
  getTaskById (JS.toString (id task)) s1 =
    (s1, {| status := 200; json := OneTask task |}) /\
  snd (markTaskAsDone (JS.toString (id task)) s1) =
    {| status := 200;
       json := OneTask {| id := nextId s; title := t; completed := true |} |}.
Proof.
  intros Hwf _ Ht Hne task s1. subst s1.
  rewrite createTask_eq, Ht, (proj2 (String.eqb_neq t "") Hne).
  cbn [fst snd]. split; [done|].
  set (s1 := {| tasks := tasks s ++ [task]; nextId := nextId s + 1 |}).
  assert (Hf : first_with_id (nextId s) (tasks s1) (length (tasks s)) task).
  { repeat split.
    - simpl. by rewrite lookup_app_r, Nat.sub_diag.
    - intros m y Hm Hy. simpl in Hy. rewrite lookup_app_l in Hy by done.
      rewrite (well_formed_lookup s m y Hwf Hy). destruct Hwf as [_ ->]. lia. }
  pose proof (parseInt_toString_any (id task)) as Hp.
  change (id task) with (nextId s) in Hp |- *.
  subst s1 task. split.
  - by rewrite getTaskById_eq, Hp, (first_with_id_find _ _ _ _ Hf).
  - by rewrite (markTaskAsDone_first _ _ _ _ _ Hp Hf).
Qed.

Lemma create_then_find_witness :
  let task := {| id := 3; title := "Buy milk"; completed := false |} in
  let s1 := fst (createTask buy_milk two_tasks) in
  snd (createTask buy_milk two_tasks) =
    {| status := 201; json := OneTask task |} /\
  getTaskById (JS.toString 3) s1 = (s1, ok task) /\
  snd (markTaskAsDone (JS.toString 3) s1) =
    ok {| id := 3; title := "Buy milk"; completed := true |}.
Proof.
  apply (create_then_find buy_milk two_tasks "Buy milk");
    [split; reflexivity|reflexivity|reflexivity|discriminate].
Defined.

(** X7: complete, then look up with the same segment: [getTaskById]
    answers what [markTaskAsDone] answered, a task with
    [completed = true]. *)
Theorem complete_then_find (id_param : string) (s : Store) :
  status (snd (markTaskAsDone id_param s)) = 200 ->
  getTaskById id_param (fst (markTaskAsDone id_param s)) =
    (fst (markTaskAsDone id_param s), snd (markTaskAsDone id_param s)) /\
  exists t,
    snd (markTaskAsDone id_param s) = {| status := 200; json := OneTask t |} /\
    completed t = true.
Proof.
  intros Hst.
  destruct (JS.parseInt id_param) as [|z] eqn:Hp.
  { by rewrite (markTaskAsDone_NaN _ _ Hp) in Hst. }
  destruct (JS.find (has_id (JS.Integer z)) (tasks s)) as [t|] eqn:Hf.
  2: { by rewrite (markTaskAsDone_None _ _ _ Hp Hf) in Hst. }
  destruct (find_first_with_id _ _ _ Hf) as (n & Hn).
  rewrite (markTaskAsDone_first _ _ _ _ _ Hp Hn). cbn [fst snd]. split.
  - rewrite getTaskById_eq, Hp. cbn [tasks].
    by rewrite (first_with_id_find _ _ _ _ (first_with_id_insert _ _ _ _ Hn)).
  - by exists (set_completed t).
Qed.

Lemma complete_then_find_witness :
  getTaskById "1" (fst (markTaskAsDone "1" two_tasks)) =
    (fst (markTaskAsDone "1" two_tasks), snd (markTaskAsDone "1" two_tasks)) /\
  exists t,
    snd (markTaskAsDone "1" two_tasks) = ok t /\ completed t = true.
Proof. apply (complete_then_find "1" two_tasks). reflexivity. Defined.

(** What [markTaskAsDone] does to the store: nothing, or the completion
    of the first task with the parsed id. *)
Lemma markTaskAsDone_store (id_param : string) (s : Store) :
  (fst (markTaskAsDone id_param s) = s /\
   forall z, JS.parseInt id_param = JS.Integer z ->
     forall u, u ∈ tasks s -> id u <> z) \/
  (exists z n t,
     JS.parseInt id_param = JS.Integer z /\
     first_with_id z (tasks s) n t /\
     fst (markTaskAsDone id_param s) =
       {| tasks := <[n := set_completed t]> (tasks s); nextId := nextId s |}).
Proof.
  destruct (JS.parseInt id_param) as [|z] eqn:Hp.
  { left. by rewrite markTaskAsDone_NaN. }
  destruct (JS.find (has_id (JS.Integer z)) (tasks s)) as [t|] eqn:Hf.
  - right. destruct (find_first_with_id _ _ _ Hf) as (n & Hn).
    exists z, n, t. by rewrite (markTaskAsDone_first _ _ _ _ _ Hp Hn).
  - left. rewrite (markTaskAsDone_None _ _ _ Hp Hf). split; [done|].
    intros z' [= <-] u Hu. rewrite find_None in Hf.
    apply Z.eqb_neq. by apply Hf.
Qed.

Lemma first_with_id_insert_other (z : Z) (l : list Task) (n m : nat)
    (t u : Task) :
  first_with_id z l n t -> l !! m = Some u -> id u <> z ->
  first_with_id z (<[m := set_completed u]> l) n t.
Proof.
  intros (Hn & Hz & Hlt) Hm Hu.
  assert (n <> m) by (intros ->; congruence).
  repeat split; [by rewrite list_lookup_insert_ne|done|].
  intros k y Hk Hy. destruct (decide (k = m)) as [->|Hkm].
  - rewrite list_lookup_insert_eq in Hy by (by eapply lookup_lt_Some).
    by injection Hy as <-.
  - rewrite list_lookup_insert_ne in Hy by done. by apply (Hlt k y).
Qed.

Lemma absent_insert (z : Z) (l : list Task) (m : nat) (u : Task) :
  (forall y, y ∈ l -> id y <> z) -> l !! m = Some u ->
  forall y, y ∈ <[m := set_completed u]> l -> id y <> z.
Proof.
  intros Hno Hm y [k Hk]%list_elem_of_lookup_1.
  destruct (decide (k = m)) as [->|Hkm].
  - rewrite list_lookup_insert_eq in Hk by (by eapply lookup_lt_Some).
    injection Hk as <-. simpl. apply Hno. by eapply list_elem_of_lookup_2.
  - rewrite list_lookup_insert_ne in Hk by done.
    apply Hno. by eapply list_elem_of_lookup_2.
Qed.

Lemma markTaskAsDone_absent (id_param : string) (s : Store) (z : Z) :
  JS.parseInt id_param = JS.Integer z ->
  (forall u, u ∈ tasks s -> id u <> z) ->
  fst (markTaskAsDone id_param s) = s.
Proof.
  intros Hp Hno.
  by rewrite (markTaskAsDone_None _ _ z Hp (find_has_id_None _ _ Hno)).
Qed.

(** X8: two completions commute: whatever the two id segments, the store
    after both calls does not depend on their order. *)
Theorem markTaskAsDone_commute (p q : string) (s : Store) :
  fst (markTaskAsDone p (fst (markTaskAsDone q s))) =
  fst (markTaskAsDone q (fst (markTaskAsDone p s))).
Proof.
  destruct (JS.parseInt p) as [|zp] eqn:Hp.
  { by rewrite !(markTaskAsDone_NaN p _ Hp). }
  destruct (JS.parseInt q) as [|zq] eqn:Hq.
  { by rewrite !(markTaskAsDone_NaN q _ Hq). }
  destruct (decide (zp = zq)) as [->|Hne].
  { by rewrite !(markTaskAsDone_parseInt p q) by congruence. }
  destruct (markTaskAsDone_store p s) as [[Ep Hnp]|(z & n & t & Hz & Hn & Ep)];
  destruct (markTaskAsDone_store q s) as [[Eq Hnq]|(z' & m & u & Hz' & Hm & Eq)];
    rewrite ?Ep, ?Eq, ?Ep, ?Eq.
  - done.
  - rewrite Hq in Hz'. injection Hz' as <-.
    apply (markTaskAsDone_absent p _ zp Hp). cbn [tasks].
    apply absent_insert; [by apply Hnp|apply Hm].
  - rewrite Hp in Hz. injection Hz as <-.
    symmetry.
    apply (markTaskAsDone_absent q _ zq Hq). cbn [tasks].
    apply absent_insert; [by apply Hnq|apply Hn].
  - rewrite Hp in Hz. injection Hz as <-.
    rewrite Hq in Hz'. injection Hz' as <-.
    pose proof Hn as (Hnl & Hnz & _). pose proof Hm as (Hml & Hmz & _).
    assert (n <> m) by (intros ->; congruence).
    pose proof (first_with_id_insert_other _ _ _ _ _ _ Hn Hml
                  ltac:(congruence)) as Hn'.
    pose proof (first_with_id_insert_other _ _ _ _ _ _ Hm Hnl
                  ltac:(congruence)) as Hm'.
    rewrite (markTaskAsDone_first p
               {| tasks := <[m := set_completed u]> (tasks s);
                  nextId := nextId s |} zp n t Hp Hn').
    rewrite (markTaskAsDone_first q
               {| tasks := <[n := set_completed t]> (tasks s);
                  nextId := nextId s |} zq m u Hq Hm').
    cbn [fst tasks nextId]. f_equal. by apply list_insert_insert_ne.
Qed.

Lemma handle_read (r : Request) (s : Store) :
  is_write r = false ->
  fst (handle r s) = s /\ created_task (snd (handle r s)) = None.
Proof.
  destruct r as [|body|p|p]; try discriminate; intros _; simpl.
  - done.
  - rewrite getTaskById_eq. by destruct (JS.find _ _).
Qed.

(** X9: [getAllTasks] and [getTaskById] are transparent: leaving the GET
    requests out of a run changes neither the store it ends in nor the
    tasks it creates. *)
Theorem reads_are_transparent (rs : list Request) (s : Store) :
  fst (run rs s) = fst (run (List.filter is_write rs) s) /\
  created (snd (run rs s)) = created (snd (run (List.filter is_write rs) s)).
Proof.
  revert s. induction rs as [|r rs IH]; intros s; [done|].
  cbn [List.filter]. destruct (is_write r) eqn:Hr.
  - rewrite !run_cons. cbn [fst snd]. rewrite !created_cons.
    destruct (IH (fst (handle r s))) as [-> ->]. done.
  - rewrite run_cons. cbn [fst snd]. rewrite created_cons.
    destruct (handle_read r s Hr) as [-> ->]. apply IH.
Qed.

(** ** Which id segments are read as which id *)

Lemma digits_seen (s : string) (acc : Z) : JS.digits s true acc <> None.
Proof.
  revert acc. induction s as [|c s IH]; intros acc; simpl; [done|].
  by destruct (JS.digit c).
Qed.

Lemma digits_None (s : string) :
  JS.digits s false 0 = None <-> stops s = true.
Proof.
  destruct s as [|c s]; simpl; [done|].
  destruct (JS.digit c); [|done].
  split; [|done]. intros H. by apply digits_seen in H.
Qed.

Lemma parseInt_NaN (s : string) :
  JS.parseInt s = JS.NaN <-> stops (strip_sign (JS.trimStart s)) = true.
Proof.
  rewrite <- digits_None. unfold JS.parseInt, strip_sign.
  destruct (JS.trimStart s) as [|c r].
  - done.
  - destruct c as [[] [] [] [] [] [] [] []];
      match goal with
      | |- context [JS.digits ?x false 0] =>
          destruct (JS.digits x false 0); split; done
      end.
Qed.

(** X11: [markTaskAsDone] answers 400 "Invalid ID format" exactly for the
    segments that, after the leading white space and one optional sign,
    are empty or go on with a character that is no digit; [getTaskById]
    answers 404 for all of those. *)
Theorem invalid_id_segments (id_param : string) (s : Store) :
  (markTaskAsDone id_param s = (s, invalid_id) <->
   stops (strip_sign (JS.trimStart id_param)) = true) /\
  (stops (strip_sign (JS.trimStart id_param)) = true ->
   getTaskById id_param s = (s, not_found)).
Proof.
  rewrite <- parseInt_NaN. split; [split|].
  - intros H. destruct (JS.parseInt id_param) as [|z] eqn:Hp; [done|].
    destruct (JS.find (has_id (JS.Integer z)) (tasks s)) as [t|] eqn:Hf.
    + destruct (markTaskAsDone_Some _ _ _ _ Hp Hf) as (n & _ & _ & E).
      rewrite E in H. discriminate.
    + rewrite (markTaskAsDone_None _ _ _ Hp Hf) in H. discriminate.
  - apply markTaskAsDone_NaN.
  - intros Hp. by rewrite getTaskById_eq, Hp, find_has_id_NaN.
Qed.

Lemma invalid_id_segments_witness :
  markTaskAsDone "  -" two_tasks = (two_tasks, invalid_id) /\
  getTaskById "+x1" two_tasks = (two_tasks, not_found).
Proof.
  split.
  - apply (invalid_id_segments "  -" two_tasks). reflexivity.
  - apply (invalid_id_segments "+x1" two_tasks). reflexivity.
Defined.

(** X10: leading white space and a plus sign are skipped: such a segment
    is read as its digits alone by both handlers; with a minus sign it is
    read as the digits with a minus sign are, which is the opposite number
    when the digits denote a number below 2^53. *)
Theorem id_white_space_and_sign (ws ds rest : string) (s : Store) :
  is_white_spaces ws = true ->
  is_digits ds = true -> ds <> "" -> stops rest = true ->
  getTaskById (ws ++ ds ++ rest) s = getTaskById ds s /\
  markTaskAsDone (ws ++ ds ++ rest) s = markTaskAsDone ds s /\
  getTaskById (ws ++ String "+" (ds ++ rest)) s = getTaskById ds s /\
  markTaskAsDone (ws ++ String "+" (ds ++ rest)) s = markTaskAsDone ds s /\
  JS.parseInt (ws ++ String "-" (ds ++ rest)) = JS.parseInt (String "-" ds) /\
  (decimal ds < 2 ^ 53 ->
   JS.parseInt (ws ++ String "-" (ds ++ rest)) = JS.Integer (- decimal ds)).
Proof.
  intros Hws Hd Hne Hr.
  pose proof (parseInt_prefix ds "" Hd Hne eq_refl) as H0.
  rewrite append_empty in H0.
  assert (H1 : JS.parseInt (ws ++ ds ++ rest) = JS.parseInt ds).
  { by rewrite parseInt_white_spaces, parseInt_prefix, H0. }
  assert (H2 : JS.parseInt (ws ++ String "+" (ds ++ rest)) = JS.parseInt ds).
  { by rewrite parseInt_white_spaces, parseInt_plus, H0. }
  assert (H3 : JS.parseInt (ws ++ String "-" (ds ++ rest)) =
               JS.Integer (- decimal ds)).
  { by rewrite parseInt_white_spaces, parseInt_minus. }
  repeat split.
  - by apply getTaskById_parseInt.
  - by apply markTaskAsDone_parseInt.
  - by apply getTaskById_parseInt.
  - by apply markTaskAsDone_parseInt.
  - rewrite H3. pose proof (parseInt_minus ds "" Hd Hne eq_refl) as H4.
    by rewrite append_empty in H4.
  - done.
Qed.

Lemma id_white_space_and_sign_witness :
  (getTaskById " 2" two_tasks = getTaskById "2" two_tasks /\
   markTaskAsDone " 2" two_tasks = markTaskAsDone "2" two_tasks /\
   getTaskById " +2" two_tasks = getTaskById "2" two_tasks /\
   markTaskAsDone " +2" two_tasks = markTaskAsDone "2" two_tasks /\
   JS.parseInt " -2" = JS.parseInt "-2") /\
  JS.parseInt " -2" = JS.Integer (-2).
Proof.
  destruct (id_white_space_and_sign " " "2" "" two_tasks eq_refl eq_refl
              ltac:(discriminate) eq_refl)
    as (H1 & H2 & H3 & H4 & H5 & H6).
  split; [by repeat split|]. apply H6. reflexivity.
Defined.

(** X12: the two handlers that take an id agree on the task it names:
    for a segment that parses, [markTaskAsDone] answers 404 exactly when
    [getTaskById] does, and otherwise completes and returns the very task
    that [getTaskById] returns.  They differ only on a segment that does
    not parse: 404 from [getTaskById], 400 from [markTaskAsDone]. *)
Theorem handlers_agree (id_param : string) (s : Store) :
  (JS.parseInt id_param <> JS.NaN ->
   status (snd (getTaskById id_param s)) =
     status (snd (markTaskAsDone id_param s)) /\
   forall t,
     snd (getTaskById id_param s) = {| status := 200; json := OneTask t |} ->
     snd (markTaskAsDone id_param s) =
       {| status := 200;
          json := OneTask {| id := id t; title := title t;
                             completed := true |} |}) /\
  (JS.parseInt id_param = JS.NaN ->
   status (snd (getTaskById id_param s)) = 404 /\
   status (snd (markTaskAsDone id_param s)) = 400).
Proof.
  rewrite getTaskById_eq. split.
  - intros Hp. destruct (JS.parseInt id_param) as [|z] eqn:E; [done|].
    destruct (JS.find (has_id (JS.Integer z)) (tasks s)) as [t|] eqn:Hf.
    + destruct (markTaskAsDone_Some _ _ _ _ E Hf) as (n & _ & _ & ->).
      split; [done|]. by intros t' [= <-].
    + rewrite (markTaskAsDone_None _ _ _ E Hf). split; [done|]. done.
  - intros Hp. rewrite (markTaskAsDone_NaN _ _ Hp), Hp, find_has_id_NaN. done.
Qed.

Lemma handlers_agree_witness :
  (status (snd (getTaskById "2x" two_tasks)) =
     status (snd (markTaskAsDone "2x" two_tasks)) /\
   forall t,
     snd (getTaskById "2x" two_tasks) = ok t ->
     snd (markTaskAsDone "2x" two_tasks) = ok (set_completed t)) /\
  status (snd (getTaskById "x" two_tasks)) = 404 /\
  status (snd (markTaskAsDone "x" two_tasks)) = 400.
Proof.
  split.
  - apply (handlers_agree "2x" two_tasks). discriminate.
  - apply (handlers_agree "x" two_tasks). reflexivity.
Defined.

(** ** Completions last *)

Lemma handle_well_formed (r : Request) (s : Store) :
  well_formed s -> well_formed (fst (handle r s)).
Proof.
  intros Hwf. pose proof (run_well_formed [r] s Hwf) as H.
  rewrite run_cons in H. exact H.
Qed.

(** X13: a completion request takes effect and lasts: in a run from a
    well-formed store, if some [markTaskAsDone] request carries the id of
    a task that is already stored, that task is completed in the store
    the run ends in, whatever else the run does. *)
Theorem completion_lasts (rs : list Request) (s : Store) (i : nat)
    (t : Task) (p : string) :
  well_formed s -> tasks s !! i = Some t ->
  PATCH_tasks_id_done p ∈ rs -> JS.parseInt p = JS.Integer (id t) ->
  exists t',
    tasks (fst (run rs s)) !! i = Some t' /\
    id t' = id t /\ title t' = title t /\ completed t' = true.
Proof.
  revert s t. induction rs as [|r rs IH]; intros s t Hwf Hi Hin Hp.
  { by apply elem_of_nil in Hin. }
  rewrite run_cons. cbn [fst].
  apply elem_of_cons in Hin as [<-|Hin].
  - pose proof (well_formed_first s i t Hwf Hi) as Hf.
    rewrite <- (well_formed_lookup s i t Hwf Hi) in Hf.
    simpl handle. rewrite (markTaskAsDone_first _ _ _ _ _ Hp Hf). cbn [fst].
    destruct (run_completed rs
                {| tasks := <[i := set_completed t]> (tasks s);
                   nextId := nextId s |} i (set_completed t))
      as (t' & Ht' & Hid & Hti & Hc).
    { apply list_lookup_insert_eq. by eapply lookup_lt_Some. }
    exists t'. repeat split; [done..|]. by apply Hc.
  - destruct (handle_completed r s i t Hi) as (u & Hu & Hid & Hti & _ & _).
    destruct (IH (fst (handle r s)) u) as (t' & Ht' & Hid' & Hti' & Hc').
    + by apply handle_well_formed.
    + done.
    + done.
    + by rewrite Hid.
    + exists t'. repeat split; [done|congruence|congruence|done].
Qed.

Lemma completion_lasts_witness :
  exists t',
    tasks (fst (run [GET_tasks; PATCH_tasks_id_done "2"; buy_milk_request]
                  two_tasks)) !! 1%nat = Some t' /\
    id t' = 2 /\ title t' = "B" /\ completed t' = true.
Proof.
  apply (completion_lasts
           [GET_tasks; PATCH_tasks_id_done "2"; buy_milk_request]
           two_tasks 1 task_B "2").
  - split; reflexivity.
  - reflexivity.
  - right. left.
  - reflexivity.
Defined.
